(** * Buffett Indicator helper: a shallow embedding of main.py, Home.py
      and the calculator of the About page

    The development follows the source files:

    - [main.py]: [_fetch_indicator_for_country], [fetch_for_countries],
      [combine_countries_to_df] and the command-line example;
    - [Home.py]: what happens when the button is pressed: the fetch, the
      missing-year handling applied to the combined table ([ffill] /
      [interpolate(method="linear")]), the rows of the chart and the
      latest values;
    - [pages/1_About_Buffett_Indicator.py]: the calculator.

    Conventions of the embedding.

    - A Python [float] is a primitive binary64 [float]; pandas stores a
      missing cell of a float column as NaN, so "absent" is [is_nan].  A
      column that holds only [None] has dtype object in pandas; its cells
      are missing as well ([isna]) and arithmetic on them yields NaN, so the
      embedding writes NaN for them too.
    - A Python [int] is a [Z].  Index labels (years) are [Z]; the int64
      bound of a pandas integer index is not modelled.
    - The body returned by [resp.json()] is a [json] value.
    - Exceptions are values of [exn]; a computation that may raise returns
      [exn + A]; code that talks to the network additionally threads the
      log of the events it caused. *)

From Stdlib Require Import ZArith Ascii Floats.
From stdpp Require Import gmap strings list sorting pretty.

#[local] Open Scope Z_scope.

(** ** Python exceptions and results *)

Inductive exn : Type :=
  | ConnectionError                 (* requests.get failed in transport *)
  | HTTPError (status : Z)          (* resp.raise_for_status() *)
  | JSONDecodeError                 (* resp.json() on a body that is not JSON *)
  | TypeError
  | KeyError (key : string)
  | IndexError
  | ValueError (msg : string)
  | OverflowError.

Definition result (A : Type) : Type := exn + A.

Definition raised {A} (r : result A) : Prop := ∃ e, r = inl e.
Definition returned {A} (r : result A) : Prop := ∃ a, r = inr a.

Definition rbind {A B} (r : result A) (k : A → result B) : result B :=
  match r with
  | inl e => inl e
  | inr a => k a
  end.

Notation "x ←? r ; k" := (rbind r (λ x, k))
  (at level 100, r at next level, k at level 200, right associativity,
   format "x  ←?  r ;  '/' k").

(** ** Floats: missing values and the facts of IEEE arithmetic used below *)

Definition isna (x : float) : bool := PrimFloat.is_nan x.
Definition notna (x : float) : bool := negb (isna x).

(** ** JSON values, as [resp.json()] builds them

    Objects are Python dicts: keys are unique, and lookup returns the entry
    of the key. *)

#[warnings="-register-all"]
Inductive json : Type :=
  | JNull
  | JBool (b : bool)
  | JInt (z : Z)
  | JFloat (f : float)
  | JStr (s : string)
  | JArr (items : list json)
  | JObj (fields : list (string * json)).

Fixpoint assoc {A} (k : string) (kvs : list (string * A)) : option A :=
  match kvs with
  | [] => None
  | (k', v) :: rest => if decide (k = k') then Some v else assoc k rest
  end.

(** ** Python built-ins used by the fetcher *)

(** [isinstance(data, list)] and [len(data)]. *)
Definition isinstance_list (v : json) : bool :=
  match v with JArr _ => true | _ => false end.

Definition py_len (v : json) : result Z :=
  match v with
  | JArr items => inr (Z.of_nat (length items))
  | JObj fields => inr (Z.of_nat (length fields))
  | JStr s => inr (Z.of_nat (String.length s))
  | _ => inl TypeError
  end.

(** [v[i]] for a non-negative integer literal [i]. *)
Definition getitem_int (v : json) (i : nat) : result json :=
  match v with
  | JArr items =>
      match items !! i with
      | Some x => inr x
      | None => inl IndexError
      end
  | _ => inl TypeError
  end.

(** [v[key]] for a string key: a dict looks the key up and raises
    [KeyError]; every other JSON value rejects a string subscript. *)
Definition getitem_str (v : json) (key : string) : result json :=
  match v with
  | JObj fields =>
      match assoc key fields with
      | Some x => inr x
      | None => inl (KeyError key)
      end
  | _ => inl TypeError
  end.

(** [iter(v)]: the items a [for] loop visits.  A dict yields its keys and a
    string its characters; the loop body below subscripts every item with a
    string, which any string item rejects, so only emptiness of a string
    matters and its characters are taken bytewise. *)
Definition py_iter (v : json) : result (list json) :=
  match v with
  | JArr items => inr items
  | JObj fields => inr (JStr <$> fields.*1)
  | JStr s => inr ((λ c, JStr (String c "")) <$> String.list_ascii_of_string s)
  | _ => inl TypeError
  end.

(** *** [int(x)] *)

Definition is_space (c : ascii) : bool :=
  let n := nat_of_ascii c in
  ((9 <=? n)%nat && (n <=? 13)%nat) || ((28 <=? n)%nat && (n <=? 32)%nat).

Definition is_digit (c : ascii) : bool :=
  let n := nat_of_ascii c in (48 <=? n)%nat && (n <=? 57)%nat.

Definition digit_val (c : ascii) : Z := Z.of_nat (nat_of_ascii c) - 48.

Fixpoint lstrip (l : list ascii) : list ascii :=
  match l with
  | c :: l' => if is_space c then lstrip l' else l
  | [] => []
  end.

Definition strip (l : list ascii) : list ascii :=
  reverse (lstrip (reverse (lstrip l))).

(** A run of digits in which single underscores may separate digits:
    [digit (["_"] digit)*].  Returns the value and the number of digits. *)
Fixpoint digitpart (l : list ascii) (acc : Z) (n : nat) (after_digit : bool)
  : option (Z * nat) :=
  match l with
  | [] => if after_digit then Some (acc, n) else None
  | c :: l' =>
      if is_digit c then digitpart l' (10 * acc + digit_val c) (S n) true
      else if Ascii.eqb c "_" && after_digit then digitpart l' acc n false
      else None
  end.

(** An optional sign in front of the rest. *)
Definition split_sign (l : list ascii) : bool * list ascii :=
  match l with
  | c :: l' =>
      if Ascii.eqb c "-" then (true, l')
      else if Ascii.eqb c "+" then (false, l')
      else (false, l)
  | [] => (false, [])
  end.

(** [int(s)] for a string, base 10: surrounding whitespace, an optional
    sign, digits with optional single underscores.  ASCII only: digits and
    spaces outside ASCII, and the interpreter's limit on the number of
    digits, are not modelled. *)
Definition int_of_string (s : string) : option Z :=
  let '(neg, body) := split_sign (strip (String.list_ascii_of_string s)) in
  match digitpart body 0 0 false with
  | Some (v, _) => Some (if neg then - v else v)
  | None => None
  end.

(** [int(f)] for a float: truncation towards zero; NaN and the infinities
    are rejected. *)
Definition int_of_float (f : float) : result Z :=
  match Prim2SF f with
  | S754_nan => inl (ValueError "cannot convert float NaN to integer")
  | S754_infinity _ => inl OverflowError
  | S754_zero _ => inr 0
  | S754_finite s m e =>
      let mag := if 0 <=? e then Z.pos m * 2 ^ e else Z.pos m / 2 ^ (- e) in
      inr (if s then - mag else mag)
  end.

Definition py_int (v : json) : result Z :=
  match v with
  | JInt z => inr z
  | JBool b => inr (if b then 1 else 0)
  | JFloat f => int_of_float f
  | JStr s =>
      match int_of_string s with
      | Some z => inr z
      | None => inl (ValueError "invalid literal for int() with base 10")
      end
  | JNull | JArr _ | JObj _ => inl TypeError
  end.

(** *** [float(x)] *)

(** The binary64 value nearest to [n / d] (ties to even), for [0 ≤ n] and
    [0 < d]: the quotient is taken with at least 64 significant bits and one
    more bit records whether anything was lost, which is all the rounding of
    [binary_normalize] can depend on. *)
Definition round_ratio (neg : bool) (n d : Z) : spec_float :=
  if n =? 0 then S754_zero neg
  else
    let s := Z.max 0 (66 + Z.log2 d - Z.log2 n) in
    let '(q, r) := Z.div_eucl (n * 2 ^ s) d in
    let m := 2 * q + (if r =? 0 then 0 else 1) in
    binary_normalize prec emax (if neg then - m else m) (- s - 1) neg.

(** [float(z)] for an integer: the nearest float, [OverflowError] when that
    is out of range. *)
Definition float_of_int (z : Z) : result float :=
  match round_ratio (z <? 0) (Z.abs z) 1 with
  | S754_infinity _ => inl OverflowError
  | sf => inr (SF2Prim sf)
  end.

Definition to_lower (c : ascii) : ascii :=
  let n := nat_of_ascii c in
  if (65 <=? n)%nat && (n <=? 90)%nat then ascii_of_nat (n + 32) else c.

(** The first position of a character satisfying [p] splits the list. *)
Fixpoint split_on (p : ascii → bool) (l : list ascii)
  : list ascii * option (list ascii) :=
  match l with
  | [] => ([], None)
  | c :: l' =>
      if p c then ([], Some l')
      else let '(a, b) := split_on p l' in (c :: a, b)
  end.

(** [intpart ["." [fracpart]] | "." fracpart]: the digits as one integer
    and the number of digits after the point. *)
Definition decimal_mantissa (l : list ascii) : option (Z * nat) :=
  match split_on (λ c, Ascii.eqb c ".") l with
  | (ip, None) =>
      match digitpart ip 0 0 false with
      | Some (v, _) => Some (v, 0%nat)
      | None => None
      end
  | (ip, Some fp) =>
      match ip, fp with
      | [], [] => None
      | _, [] =>
          match digitpart ip 0 0 false with
          | Some (v, _) => Some (v, 0%nat)
          | None => None
          end
      | [], _ => digitpart fp 0 0 false
      | _, _ =>
          match digitpart ip 0 0 false with
          | Some (v, _) => digitpart fp v 0 false
          | None => None
          end
      end
  end.

(** [float(s)] for a string: surrounding whitespace, an optional sign, then
    [inf], [infinity] or [nan] in any case, or a decimal literal with an
    optional exponent; the decimal value is rounded to the nearest float
    (overflow gives an infinity).  ASCII only. *)
Definition float_of_string (s : string) : option float :=
  let '(neg, body) := split_sign (strip (String.list_ascii_of_string s)) in
  let low := String.string_of_list_ascii (to_lower <$> body) in
  if decide (low = "inf" ∨ low = "infinity") then
    Some (if neg then neg_infinity else infinity)
  else if decide (low = "nan") then Some nan
  else
    let '(mant, ex) := split_on (λ c, Ascii.eqb (to_lower c) "e") body in
    match decimal_mantissa mant with
    | None => None
    | Some (m, nfrac) =>
        let exp10 :=
          match ex with
          | None => Some 0
          | Some el =>
              let '(eneg, ebody) := split_sign el in
              match digitpart ebody 0 0 false with
              | Some (v, _) => Some (if eneg then - v else v)
              | None => None
              end
          end in
        match exp10 with
        | None => None
        | Some e10 =>
            let e := e10 - Z.of_nat nfrac in
            Some (SF2Prim (if 0 <=? e then round_ratio neg (m * 10 ^ e) 1
                           else round_ratio neg m (10 ^ (- e))))
        end
    end.

Definition py_float (v : json) : result float :=
  match v with
  | JFloat f => inr f
  | JInt z => float_of_int z
  | JBool b => inr (if b then 1%float else 0%float)
  | JStr s =>
      match float_of_string s with
      | Some f => inr f
      | None => inl (ValueError "could not convert string to float")
      end
  | JNull | JArr _ | JObj _ => inl TypeError
  end.

(** ** pandas: Series and DataFrame

    A [Series] is the list of its (label, value) pairs in index order.  A
    [DataFrame] has one index and named columns, each as long as the
    index. *)

Definition Series : Type := list (Z * float).

Record DataFrame : Type := mkDataFrame {
  df_index : list Z;
  df_columns : list (string * list float)
}.

(** [pd.DataFrame()] and [pd.Series(dtype=float)]. *)
Definition empty_frame : DataFrame := mkDataFrame [] [].
Definition empty_series : Series := [].

(** The value at a label, NaN where the label is missing: what alignment
    ([reindex]) writes into a cell. *)
Fixpoint at_label (s : Series) (y : Z) : option float :=
  match s with
  | [] => None
  | (y', v) :: rest => if decide (y = y') then Some v else at_label rest y
  end.

Definition cell_of (s : Series) (y : Z) : float := default nan (at_label s y).

Definition reindex (s : Series) (idx : list Z) : list float := cell_of s <$> idx.

(** [pd.Series(values)] for a dict from labels to [float] or [None]; the
    order of the labels is the dict's, and is fixed by [sort_index] right
    after. *)
Definition pd_Series (values : gmap Z (option float)) : Series :=
  (λ kv, (kv.1, default nan kv.2)) <$> map_to_list values.

Definition label_le : relation (Z * float) := λ a b, a.1 ≤ b.1.

#[global] Instance label_le_dec a b : Decision (label_le a b) := Z.le_dec _ _.

(** [s.sort_index()] *)
Definition sort_index (s : Series) : Series := merge_sort label_le s.

(** The index of [pd.DataFrame({name: series, ...})]: the shared index when
    all indexes are equal, else their sorted union. *)
Definition union_indexes (idxs : list (list Z)) : list Z :=
  match idxs with
  | [] => []
  | i :: rest =>
      if decide (Forall (λ j, j = i) rest) then i
      else merge_sort Z.le (remove_dups (concat idxs))
  end.

(** [pd.DataFrame(dict of Series)] *)
Definition pd_DataFrame (cols : list (string * Series)) : DataFrame :=
  let idx := union_indexes ((λ c, c.2.*1) <$> cols) in
  mkDataFrame idx ((λ c, (c.1, reindex c.2 idx)) <$> cols).

(** [df[name]] as a column, and as a Series. *)
Definition getcol (df : DataFrame) (name : string) : result (list float) :=
  match assoc name (df_columns df) with
  | Some c => inr c
  | None => inl (KeyError name)
  end.

Definition series_of (df : DataFrame) (col : list float) : Series :=
  zip (df_index df) col.

(** [d[k] = v] on an insertion-ordered dict: an existing key keeps its
    place. *)
Fixpoint dict_set {A} (k : string) (v : A) (d : list (string * A))
  : list (string * A) :=
  match d with
  | [] => [(k, v)]
  | (k', v') :: rest =>
      if decide (k = k') then (k, v) :: rest else (k', v') :: dict_set k v rest
  end.

(** [df[name] = col] *)
Definition setcol (df : DataFrame) (name : string) (col : list float) : DataFrame :=
  mkDataFrame (df_index df) (dict_set name col (df_columns df)).

(** Element-wise [a / b] and [a * k] on float columns: numpy division, so a
    zero divisor gives an infinity or NaN and no exception. *)
Definition col_div (a b : list float) : list float := zip_with PrimFloat.div a b.
Definition col_scale (a : list float) (k : float) : list float :=
  (λ x, PrimFloat.mul x k) <$> a.

(** [pd.concat(frames, axis=1)] of named Series: the union of the indexes
    in order of first appearance (sort=False), one column per Series.  The
    indexes met here have no repeated label. *)
Definition pd_concat_axis1 (frames : list (string * Series)) : DataFrame :=
  let idx := remove_dups (concat ((λ f, f.2.*1) <$> frames)) in
  mkDataFrame idx ((λ f, (f.1, reindex f.2 idx)) <$> frames).

(** [df.sort_index()]: rows reordered by ascending label; each row is found
    by its label, which is unique in the frames sorted here. *)
Definition df_sort_index (df : DataFrame) : DataFrame :=
  let idx := merge_sort Z.le (df_index df) in
  mkDataFrame idx ((λ c, (c.1, reindex (series_of df c.2) idx)) <$> df_columns df).

(** The cell of a frame at a label and a column position or name. *)
Definition df_cell (df : DataFrame) (name : string) (y : Z) : option float :=
  match assoc name (df_columns df) with
  | Some c => at_label (series_of df c) y
  | None => None
  end.

(** ** main.py *)

Definition WB_API : string := "https://api.worldbank.org/v2".

(** Top-10 country mapping (display name -> ISO3). *)
Definition TOP10_COUNTRIES : list (string * string) :=
  [ ("United States", "USA"); ("China", "CHN"); ("Japan", "JPN");
    ("India", "IND"); ("United Kingdom", "GBR"); ("France", "FRA");
    ("Canada", "CAN"); ("Germany", "DEU"); ("Switzerland", "CHE");
    ("Australia", "AUS") ].

Definition MARKETCAP_IND : string := "CM.MKT.LCAP.CD".
Definition GDP_IND : string := "NY.GDP.MKTP.CD".

(** *** The remote service, the clock and the event log *)

Record params : Type := mkParams {
  p_date : string;
  p_format : string;
  p_per_page : Z
}.

Record response : Type := mkResponse {
  status_code : Z;
  body : option json    (* [None]: the body is not JSON *)
}.

Inductive event : Type :=
  | Get (url : string) (p : params)     (* requests.get(url, params=p) *)
  | Sleep.                              (* time.sleep(pause) *)

Definition is_get (ev : event) : bool :=
  match ev with Get _ _ => true | Sleep => false end.

(** The number of network calls in a log. *)
Definition calls (log : list event) : nat := length (filter is_get log).

(** [resp.raise_for_status()] *)
Definition raise_for_status (resp : response) : result unit :=
  if (400 <=? status_code resp) && (status_code resp <? 600)
  then inl (HTTPError (status_code resp)) else inr tt.

(** [resp.json()] *)
Definition resp_json (resp : response) : result json :=
  match body resp with
  | Some data => inr data
  | None => inl JSONDecodeError
  end.

(** One turn of the loop over [records]: lines 52-53 read the year and the
    value of the item, line 54 writes them into the dict. *)
Definition read_record (item : json) : result (Z * option float) :=
  d ←? getitem_str item "date";
  year ←? py_int d;
  val ←? getitem_str item "value";
  v ←? match val with
       | JNull => inr None
       | _ => f ←? py_float val; inr (Some f)
       end;
  inr (year, v).

Definition record_step (values : gmap Z (option float)) (item : json)
  : result (gmap Z (option float)) :=
  yv ←? read_record item;
  inr (<[yv.1 := yv.2]> values).

(** A [for] loop whose body may raise: the first exception ends it. *)
Fixpoint for_each {A S} (step : S → A → result S) (s : S) (items : list A)
  : result S :=
  match items with
  | [] => inr s
  | x :: rest => s' ←? step s x; for_each step s' rest
  end.

(** Lines 47-58: from the decoded body to the Series. *)
Definition series_of_data (data : json) : result Series :=
  no_data ←? (if negb (isinstance_list data) then inr true
              else len ←? py_len data; inr (len <? 2));
  if (no_data : bool) then inr empty_series
  else
    records ←? getitem_int data 1;
    items ←? py_iter records;
    values ←? for_each record_step ∅ items;
    inr (sort_index (pd_Series values)).

(** Lines 74-76: the per-country table. *)
Definition country_frame (mc gdp : Series) : DataFrame :=
  let df := pd_DataFrame [("market_cap", mc); ("gdp", gdp)] in
  let idx := df_index df in
  setcol df "buffett" (col_div (reindex mc idx) (reindex gdp idx)).

(** Lines 87-95 *)
Definition combine_countries_to_df (country_data : list (string * DataFrame))
  : result DataFrame :=
  frames ←? for_each
    (λ (frames : list (string * Series)) (kv : string * DataFrame),
       col ←? getcol kv.2 "buffett";
       let s := series_of kv.2 (col_scale col 100) in
       inr (frames ++ [(kv.1, s)]))
    [] country_data;
  match frames with
  | [] => inr empty_frame
  | _ => inr (df_sort_index (pd_concat_axis1 frames))
  end.

Section World.

(** The year of [pd.Timestamp.now()], and the service: what
    [requests.get] returns or raises for a request, given the events so
    far. *)
Variable now_year : Z.
Variable remote : list event → string → params → result response.

(** Code with effects: from the log so far to an outcome and the log
    after. *)
Definition M (A : Type) : Type := list event → result A * list event.

Definition ret {A} (a : A) : M A := λ log, (inr a, log).
Definition raise {A} (e : exn) : M A := λ log, (inl e, log).
Definition lift {A} (r : result A) : M A := λ log, (r, log).
Definition bind {A B} (c : M A) (k : A → M B) : M B :=
  λ log, match c log with
         | (inl e, log') => (inl e, log')
         | (inr a, log') => k a log'
         end.

Definition requests_get (url : string) (p : params) : M response :=
  λ log, (remote log url p, log ++ [Get url p]).

Definition time_sleep : M unit := λ log, (inr tt, log ++ [Sleep]).

Notation "x ←$ c ; k" := (bind c (λ x, k))
  (at level 100, c at next level, k at level 200, right associativity,
   format "x  ←$  c ;  '/' k").

(** Lines 33-58 *)
Definition _fetch_indicator_for_country
    (country_iso3 indicator : string) (start_year : Z) (end_year : option Z)
  : M Series :=
  let end_year := default now_year end_year in
  let per_page := 1000 in
  let url := WB_API +:+ "/country/" +:+ country_iso3 +:+ "/indicator/" +:+ indicator in
  let p := mkParams (pretty start_year +:+ ":" +:+ pretty end_year) "json" per_page in
  resp ←$ requests_get url p;
  _ ←$ lift (raise_for_status resp);
  data ←$ lift (resp_json resp);
  lift (series_of_data data).

(** The body of the loop over [countries] (lines 68-78); [pause] keeps its
    default at every call site, so the sleep always returns. *)
Definition country_step (start_year : Z) (end_year : option Z)
    (result : list (string * DataFrame)) (name : string)
  : M (list (string * DataFrame)) :=
  match assoc name TOP10_COUNTRIES with
  | None =>
      raise (ValueError ("Country '" +:+ name +:+ "' not in TOP10_COUNTRIES mapping."))
  | Some iso =>
      mc ←$ _fetch_indicator_for_country iso MARKETCAP_IND start_year end_year;
      gdp ←$ _fetch_indicator_for_country iso GDP_IND start_year end_year;
      let df := country_frame mc gdp in
      _ ←$ time_sleep;
      ret (dict_set name df result)
  end.

Fixpoint for_each_M {A S} (step : S → A → M S) (s : S) (items : list A) : M S :=
  match items with
  | [] => ret s
  | x :: rest => s' ←$ step s x; for_each_M step s' rest
  end.

(** Lines 60-79 *)
Definition fetch_for_countries
    (countries : list string) (start_year : Z) (end_year : option Z)
  : M (list (string * DataFrame)) :=
  for_each_M (country_step start_year end_year) [] countries.

End World.

(** ** Home.py: missing-year handling (lines 52-56) *)

(** [of_pos i]: a row position as a float (exact below 2^53). *)
Definition of_pos (i : nat) : float := of_uint63 (Uint63.of_Z (Z.of_nat i)).

(** The value numpy's [interp] computes strictly between two samples
    [(xj, yj)] and [(xk, yk)]: the slope form, tried from the other end when
    it gives NaN. *)
Definition lerp (xj : nat) (yj : float) (xk : nat) (yk : float) (x : nat) : float :=
  let slope := PrimFloat.div (PrimFloat.sub yk yj) (PrimFloat.sub (of_pos xk) (of_pos xj)) in
  let r := PrimFloat.add (PrimFloat.mul slope (PrimFloat.sub (of_pos x) (of_pos xj))) yj in
  if is_nan r then
    let r' := PrimFloat.add (PrimFloat.mul slope (PrimFloat.sub (of_pos x) (of_pos xk))) yk in
    if is_nan r' && PrimFloat.eqb yj yk then yj else r'
  else r.

(** [np.interp(x, xp, fp)] on samples with increasing positions: the first
    value to the left of them, the last value at or beyond the last one, the
    sample itself on a sample, [lerp] in between. *)
Fixpoint np_interp (x : nat) (samples : list (nat * float)) : float :=
  match samples with
  | [] => nan
  | (xj, yj) :: rest =>
      if (x <? xj)%nat then yj
      else
        match rest with
        | [] => yj
        | (xk, yk) :: _ =>
            if (x <? xk)%nat then (if (x =? xj)%nat then yj else lerp xj yj xk yk x)
            else np_interp x rest
        end
  end.

(** The positions and values of the cells that are not missing. *)
Definition valid_samples (col : list float) : list (nat * float) :=
  filter (λ iv, notna iv.2 = true) (imap (λ i v, (i, v)) col).

(** One column under [interpolate(method="linear")] with pandas' defaults
    ([limit_direction="forward"], no limit, no [limit_area]): rows count as
    equally spaced whatever their labels; every missing cell takes
    [np.interp] of the valid cells; then the cells before the first valid one
    are set back to NaN. *)
Definition interpolate_1d (col : list float) : list float :=
  let samples := valid_samples col in
  match samples with
  | [] => col
  | (first_valid, _) :: _ =>
      let filled := imap (λ i v, if isna v then np_interp i samples else v) col in
      imap (λ i v, if (i <? first_valid)%nat then nan else v) filled
  end.

(** One column under [ffill()]: the last valid value is carried forward. *)
Fixpoint ffill_from (last : float) (col : list float) : list float :=
  match col with
  | [] => []
  | v :: rest =>
      if isna v then last :: ffill_from last rest else v :: ffill_from v rest
  end.

Definition ffill_1d (col : list float) : list float := ffill_from nan col.

Definition map_columns (f : list float → list float) (df : DataFrame) : DataFrame :=
  mkDataFrame (df_index df) ((λ c, (c.1, f c.2)) <$> df_columns df).

Definition df_ffill : DataFrame → DataFrame := map_columns ffill_1d.
Definition df_interpolate_linear : DataFrame → DataFrame := map_columns interpolate_1d.

(** Lines 52-56: the sidebar choice applied to the combined table. *)
Definition handle_missing (interpolate_method : string) (combined : DataFrame)
  : DataFrame :=
  if decide (interpolate_method = "Forward-fill") then df_ffill combined
  else if decide (interpolate_method = "Interpolate (linear)")
       then df_interpolate_linear combined
       else combined.

(** ** Home.py: from the button to the chart and the latest table
       (lines 40-70) *)



(** A row of [df_long]: the columns [year], [country] and
    [buffett_percent]. *)
Record long_row : Type := mkLongRow {
  year : Z;
  country : string;
  buffett_percent : float
}.

(** [combined.reset_index().melt(id_vars="index", var_name="country",
    value_name="buffett_percent")] with [index] renamed to [year]: the
    columns one after the other, each with the row labels beside it.  The
    columns are named by countries of [TOP10_COUNTRIES], so none of them is
    called [index]. *)
Definition melt (combined : DataFrame) : list long_row :=
  c ← df_columns combined;
  (λ yv, mkLongRow yv.1 c.1 yv.2) <$> zip (df_index combined) c.2.

(** [.dropna(subset=["buffett_percent"])] *)
Definition dropna_long (rows : list long_row) : list long_row :=
  filter (λ r, notna (buffett_percent r) = true) rows.

(** [index.max()]; pandas gives NaN for an empty index. *)
Definition index_max (idx : list Z) : option Z :=
  match idx with
  | [] => None
  | y :: rest => Some (foldl Z.max y rest)
  end.

(** What [df.loc[label]] gives: the row, as a Series indexed by the column
    names, when the label occurs once; the table of the matching rows when
    it occurs several times. *)
Inductive loc_result : Type :=
  | LocRow (row : list (string * float))
  | LocRows (rows : DataFrame).

(** [df.loc[label]]; [KeyError] for a label that does not occur. *)
Definition df_loc (df : DataFrame) (label : option Z) : result loc_result :=
  match label with
  | None => inl (KeyError "nan")
  | Some y =>
      match list_find (λ y', y' = y) (df_index df) with
      | None => inl (KeyError (pretty y))
      | Some (i, _) =>
          if decide (y ∈ drop (S i) (df_index df))
          then inr (LocRows
                 (mkDataFrame
                    (filter (λ y', y' = y) (df_index df))
                    ((λ c, (c.1, (filter (λ yv, yv.1 = y) (zip (df_index df) c.2)).*2))
                       <$> df_columns df)))
          else inr (LocRow ((λ c, (c.1, default nan (c.2 !! i))) <$> df_columns df))
      end
  end.

(** [s.dropna()] on a Series indexed by names. *)
Definition dropna (s : list (string * float)) : list (string * float) :=
  filter (λ kv, notna kv.2 = true) s.

(** [s.sort_values(ascending=False)] on a Series without NaN: the largest
    value first.  pandas' default sort does not fix the order of equal
    values; here they keep the order they come in. *)
Fixpoint insert_desc (x : string * float) (l : list (string * float))
  : list (string * float) :=
  match l with
  | [] => [x]
  | y :: l' => if PrimFloat.ltb x.2 y.2 then y :: insert_desc x l' else x :: l
  end.

Definition sort_values_desc (s : list (string * float)) : list (string * float) :=
  foldr insert_desc [] s.

(** Line 70.  On a table, which [loc] gives for a label that occurs several
    times, [sort_values] without [by] is a [TypeError]. *)
Definition latest_of (combined : DataFrame) : result (list (string * float)) :=
  r ←? df_loc combined (index_max (df_index combined));
  match r with
  | LocRow row => inr (sort_values_desc (dropna row))
  | LocRows _ => inl TypeError
  end.


Section Page.

Variable now_year : Z.
Variable remote : list event → string → params → result response.


End Page.

(** ** main.py: the command-line example (lines 97-102) *)

(** [df.tail(n)] *)
Definition df_tail (n : nat) (df : DataFrame) : DataFrame :=
  let k := (length (df_index df) - n)%nat in
  mkDataFrame (drop k (df_index df)) ((λ c, (c.1, drop k c.2)) <$> df_columns df).

Section Example.

Variable now_year : Z.
Variable remote : list event → string → params → result response.

(** The table that the example prints. *)
Definition main : M DataFrame :=
  λ log,
    let countries := take 3 TOP10_COUNTRIES.*1 in
    match fetch_for_countries now_year remote countries 1990 None log with
    | (inl e, log') => (inl e, log')
    | (inr data, log') =>
        (combined ←? combine_countries_to_df data; inr (df_tail 10 combined), log')
    end.

End Example.

(** ** pages/1_About_Buffett_Indicator.py: the calculator (lines 25-46) *)

(** Lines 33-42: the chain of comparisons; [a <= b < c] is [a <= b and
    b < c]. *)
Definition interpretation (buffett_indicator : float) : string :=
  if PrimFloat.ltb buffett_indicator 50 then "Significantly Undervalued 📉"
  else if PrimFloat.leb 50 buffett_indicator && PrimFloat.ltb buffett_indicator 75
       then "Moderately Undervalued"
  else if PrimFloat.leb 75 buffett_indicator && PrimFloat.ltb buffett_indicator 90
       then "Fair Value ⚖️"
  else if PrimFloat.leb 90 buffett_indicator && PrimFloat.ltb buffett_indicator 115
       then "Moderately Overvalued"
  else "Significantly Overvalued 📈".

(** Lines 28-46: the indicator and its reading when [gdp > 0], nothing (the
    page asks for a GDP) otherwise. *)
Definition calculator (market_cap gdp : float) : option (float * string) :=
  if PrimFloat.ltb 0 gdp then
    let buffett_indicator := PrimFloat.mul (PrimFloat.div market_cap gdp) 100 in
    Some (buffett_indicator, interpretation buffett_indicator)
  else None.

(** ** Notions used to state the facts *)

(** What [fetch_for_countries] stores per country: a frame whose labels are
    not repeated and whose [buffett] column is as long as its index. *)
Definition country_table (df : DataFrame) : Prop :=
  NoDup (df_index df)
  ∧ ∃ col, assoc "buffett" (df_columns df) = Some col
           ∧ length col = length (df_index df).

(** The Series taken from one country: [df["buffett"] * 100.0]. *)
Definition percent_series (df : DataFrame) : Series :=
  match assoc "buffett" (df_columns df) with
  | Some col => series_of df (col_scale col 100)
  | None => []
  end.


(** The request of one fetch, and what the fetcher makes of the reply. *)
Definition request_url (country_iso3 indicator : string) : string :=
  WB_API +:+ "/country/" +:+ country_iso3 +:+ "/indicator/" +:+ indicator.

Definition request_params (start_year end_year : Z) : params :=
  mkParams (pretty start_year +:+ ":" +:+ pretty end_year) "json" 1000.

Definition decode (reply : result response) : result Series :=
  resp ←? reply;
  _ ←? raise_for_status resp;
  data ←? resp_json resp;
  series_of_data data.




(** The message of the [ValueError] of line 70. *)
Definition unsupported_msg (name : string) : string :=
  "Country '" +:+ name +:+ "' not in TOP10_COUNTRIES mapping.".

(** The valid cells of a column that starts at row [o]. *)
Definition samples_from (o : nat) (col : list float) : list (nat * float) :=
  filter (λ iv, notna iv.2 = true) (imap (λ i v, ((o + i)%nat, v)) col).

(** *** Notions used by the further facts *)

(** A second element of the body that is not a list of records and over
    which the loop cannot run without raising: a value that is not iterable,
    or a dict or string that is not empty (their items are strings, which
    reject the subscript ["date"]). *)
Definition no_records (records : json) : Prop :=
  match records with
  | JArr _ => False
  | JObj fields => fields ≠ []
  | JStr s => s ≠ String.EmptyString
  | JNull | JBool _ | JInt _ | JFloat _ => True
  end.

(** The events one country causes when its turn of the loop completes. *)
Definition country_events (start_year end_year : Z) (iso : string) : list event :=
  [ Get (request_url iso MARKETCAP_IND) (request_params start_year end_year);
    Get (request_url iso GDP_IND) (request_params start_year end_year);
    Sleep ].

(** The shape of a per-country table: the three columns, each as long as the
    index, over strictly ascending years. *)
Definition country_shape (df : DataFrame) : Prop :=
  Sorted Z.lt (df_index df)
  ∧ (df_columns df).*1 = ["market_cap"; "gdp"; "buffett"]
  ∧ Forall (λ c, length c.2 = length (df_index df)) (df_columns df).

(** The row labels of the combined table of a non-empty dict: the years of
    all its tables, ascending, each once. *)
Definition combined_index (cd : list (string * DataFrame)) : list Z :=
  merge_sort Z.le (remove_dups (concat ((λ kv, df_index kv.2) <$> cd))).


(** ** Sample inputs used by the examples below *)

(** The series of the C1 example. *)
Definition mc_2020_2021 : Series := [(2020, 100%float); (2021, 110%float)].
Definition gdp_2020_2021 : Series := [(2020, 50%float); (2021, 0%float)].

(** The example of the spec: A has the years 2019 and 2020, B has 2020 and
    2021. *)
Definition tables_A_B : list (string * DataFrame) :=
  [ ("A", country_frame [(2019, 1%float); (2020, 2%float)]
                        [(2019, 4%float); (2020, 4%float)]);
    ("B", country_frame [(2020, 2%float); (2021, 1%float)]
                        [(2020, 8%float); (2021, 4%float)]) ].

(** A World Bank record, and a service that answers every request with
    status 200 and the same body. *)
Definition wb_record (date : string) (value : json) : json :=
  JObj [("date", JStr date); ("value", value)].

Definition remote_always (data : json)
  : list event → string → params → result response :=
  λ _ _ _, inr (mkResponse 200 (Some data)).

(** The body the World Bank sends for a request it has no data for: a
    single-element array. *)
Definition body_message : json := JArr [JObj [("message", JArr [])]].

Definition body_1989 : json := JArr [JNull; JArr [wb_record "1989" (JInt 7)]].






(** *** Further sample inputs *)

(** A body whose second element is null, and one whose second record has a
    value that [float] rejects. *)
Definition body_no_records : json := JArr [JObj [("total", JInt 0)]; JNull].

Definition body_bad_value : json :=
  JArr [JNull; JArr [wb_record "2019" (JInt 1); wb_record "2020" (JStr "n/a");
                     JObj [("date", JStr "2021")]]].

(** A service that answers every request with the same status and body. *)
Definition remote_status (status : Z) (data : json)
  : list event → string → params → result response :=
  λ _ _ _, inr (mkResponse status (Some data)).

(** A service that answers with status 200 and the same body, except that
    the connection fails for the GDP of one country. *)
Definition remote_without (iso : string) (data : json)
  : list event → string → params → result response :=
  λ _ url _,
    if decide (url = request_url iso GDP_IND) then inl ConnectionError
    else inr (mkResponse 200 (Some data)).

(** Two countries over three years: A has a gap in 2020, B at the end. *)
Definition frame_A_B : DataFrame :=
  mkDataFrame [2019; 2020; 2021]
    [("A", [10%float; nan; 20%float]); ("B", [30%float; 40%float; nan])].

(** * Facts *)

(** ** The built-ins on sample inputs *)

Example int_of_string_ex :
  int_of_string "2020" = Some 2020 ∧ int_of_string " -1_990 " = Some (-1990) ∧
  int_of_string "20x0" = None ∧ int_of_string "" = None ∧
  int_of_string "1__0" = None ∧ int_of_string "2020.0" = None.
Proof. repeat split; vm_compute; reflexivity. Qed.

Example int_of_float_ex :
  int_of_float 2020.5%float = inr 2020 ∧ int_of_float (-0.5)%float = inr 0 ∧
  int_of_float (-3.5)%float = inr (-3) ∧ int_of_float infinity = inl OverflowError.
Proof. repeat split; vm_compute; reflexivity. Qed.

#[warnings="-inexact-float"]
Example float_of_string_ex :
  float_of_string "0.1" = Some 0.1%float ∧
  float_of_string " -2.5e3 " = Some (-2500)%float ∧
  float_of_string "1_000.25" = Some 1000.25%float ∧
  float_of_string ".5" = Some 0.5%float ∧
  float_of_string "5." = Some 5%float ∧
  float_of_string "1e400" = Some infinity ∧
  float_of_string "4.9e-324" = Some 0x1p-1074%float ∧
  float_of_string "2e-324" = Some 0%float ∧
  float_of_string "3.14159265358979323846264338327950288" = Some 3.141592653589793%float ∧
  float_of_string "9007199254740993" = Some 9007199254740992%float ∧
  float_of_string "1.7976931348623157e308" = Some 0x1.fffffffffffffp+1023%float ∧
  float_of_string "-Infinity" = Some neg_infinity ∧
  float_of_string "." = None ∧ float_of_string "1e" = None ∧
  float_of_string "1._5" = None ∧ float_of_string "abc" = None.
Proof. repeat split; vm_compute; reflexivity. Qed.

Example float_of_int_ex :
  float_of_int 100 = inr 100%float ∧
  float_of_int (-9007199254740993) = inr (-9007199254740992)%float ∧
  float_of_int (2 ^ 1024) = inl OverflowError.
Proof. repeat split; vm_compute; reflexivity. Qed.

(** ** IEEE arithmetic on missing values *)

Section FloatFacts.

Implicit Types x y : float.

Lemma Prim2SF_nan_iff x : Prim2SF x = S754_nan ↔ isna x = true.
Proof.
  unfold isna, Prim2SF. destruct (is_nan x); [tauto|].
  split; [|discriminate].
  destruct (is_zero x); [discriminate|].
  destruct (is_infinity x); [discriminate|].
  destruct (Z.frexp x) as [r e].
  destruct (shr_fexp _ _ _ _ _) as [sh e'].
  destruct (shr_m sh); discriminate.
Qed.


Lemma isna_div_l x y : isna x = true → isna (PrimFloat.div x y) = true.
Proof.
  rewrite <- !Prim2SF_nan_iff, div_spec. intros ->. reflexivity.
Qed.

Lemma isna_div_r x y : isna y = true → isna (PrimFloat.div x y) = true.
Proof.
  rewrite <- !Prim2SF_nan_iff, div_spec. intros ->.
  destruct (Prim2SF x); reflexivity.
Qed.

Lemma isna_mul_l x y : isna x = true → isna (PrimFloat.mul x y) = true.
Proof.
  rewrite <- !Prim2SF_nan_iff, mul_spec. intros ->. reflexivity.
Qed.

(** [x == 0.0] holds of both zeros and of nothing else. *)
Lemma eqb_zero_iff x :
  PrimFloat.eqb x zero = true ↔ ∃ s, Prim2SF x = S754_zero s.
Proof.
  rewrite FloatAxioms.eqb_spec. change (Prim2SF zero) with (S754_zero false).
  destruct (Prim2SF x) as [s| | |s m e]; cbn; split;
    try discriminate; try (intros [? ?]; discriminate); eauto.
  - destruct s; discriminate.
  - destruct s; discriminate.
Qed.

(** A value that is neither missing nor zero, divided by zero, is an
    infinity: a float like any other, not a missing value. *)
Lemma div_by_zero x y :
  isna x = false → PrimFloat.eqb x zero = false → PrimFloat.eqb y zero = true →
  (PrimFloat.div x y = infinity ∨ PrimFloat.div x y = neg_infinity)
  ∧ isna (PrimFloat.div x y) = false.
Proof.
  intros Hx Hx0 Hy.
  apply eqb_zero_iff in Hy as [sy Hy].
  assert (∃ b, Prim2SF (PrimFloat.div x y) = S754_infinity b) as [b Hb].
  { rewrite div_spec, Hy. destruct (Prim2SF x) as [s| | |s m e] eqn:E.
    - assert (PrimFloat.eqb x zero = true) by (apply eqb_zero_iff; eauto).
      congruence.
    - cbn. eauto.
    - apply Prim2SF_nan_iff in E. congruence.
    - cbn. eauto. }
  rewrite <- (SF2Prim_Prim2SF (PrimFloat.div x y)), Hb.
  destruct b; cbn; split; auto.
Qed.

End FloatFacts.

(** ** Labels, alignment and sorting *)

Section SeriesFacts.

Implicit Types (s : Series) (idx : list Z) (y : Z).

Lemma at_label_None s y : at_label s y = None ↔ y ∉ s.*1.
Proof.
  induction s as [|[y' v] s IH]; cbn.
  - split; [intros _; apply not_elem_of_nil | done].
  - case_decide as E.
    + subst. split; [done | intros []; apply elem_of_cons; auto].
    + rewrite IH, not_elem_of_cons. tauto.
Qed.

Lemma at_label_is_Some s y : is_Some (at_label s y) ↔ y ∈ s.*1.
Proof.
  rewrite <- not_eq_None_Some, at_label_None.
  destruct (decide (y ∈ s.*1)); tauto.
Qed.




(** A column computed from the labels, read back at a label. *)
Lemma at_label_zip_fmap idx (f : Z → float) y :
  at_label (zip idx (f <$> idx)) y = if decide (y ∈ idx) then Some (f y) else None.
Proof.
  induction idx as [|y' idx IH]; cbn.
  - by rewrite decide_False by apply not_elem_of_nil.
  - destruct (decide (y = y')) as [->|E].
    + rewrite decide_True; [done | apply elem_of_cons; auto].
    + rewrite IH. destruct (decide (y ∈ idx)).
      * rewrite decide_True; [done | apply elem_of_cons; auto].
      * rewrite decide_False; [done | rewrite elem_of_cons; tauto].
Qed.

Lemma at_label_zip_scale idx (col : list float) (g : float → float) y :
  at_label (zip idx (g <$> col)) y = g <$> at_label (zip idx col) y.
Proof.
  revert col. induction idx as [|y' idx IH]; intros [|c col]; cbn; try done.
  case_decide; [done | apply IH].
Qed.

Lemma fst_zip_same_length idx (col : list float) :
  length col = length idx → (zip idx col).*1 = idx.
Proof. intros H. apply fst_zip. lia. Qed.

Lemma col_div_fmap idx (f g : Z → float) :
  col_div (f <$> idx) (g <$> idx) = (λ y, PrimFloat.div (f y) (g y)) <$> idx.
Proof.
  unfold col_div. induction idx as [|y idx IH]; cbn; [done | by rewrite IH].
Qed.

Lemma elem_of_concat (ls : list (list Z)) y :
  y ∈ concat ls ↔ ∃ l, l ∈ ls ∧ y ∈ l.
Proof.
  induction ls as [|l ls IH]; cbn.
  - split; [intros H; by apply elem_of_nil in H
           | intros (l & H & _); by apply elem_of_nil in H].
  - rewrite elem_of_app, IH. split.
    + intros [H|(l' & H1 & H2)]; [exists l | exists l'];
        (split; [apply elem_of_cons; auto | done]).
    + intros (l' & [->|H1]%elem_of_cons & H2); [by left | right; eauto].
Qed.

Lemma elem_of_union_indexes (idxs : list (list Z)) y :
  y ∈ union_indexes idxs ↔ ∃ i, i ∈ idxs ∧ y ∈ i.
Proof.
  destruct idxs as [|i rest]; cbn.
  - split; [intros H; by apply elem_of_nil in H | intros (i & H & _); by apply elem_of_nil in H].
  - case_decide as E.
    + split.
      * intros H. exists i. split; [apply elem_of_cons; auto | done].
      * intros (j & [->|Hj]%elem_of_cons & Hy); [done|].
        rewrite Forall_forall in E. by rewrite <- (E j Hj).
    + rewrite merge_sort_Permutation, elem_of_remove_dups.
      apply (elem_of_concat (i :: rest)).
Qed.

Lemma Sorted_le_NoDup_lt idx : Sorted Z.le idx → NoDup idx → Sorted Z.lt idx.
Proof.
  intros Hs Hnd. apply Sorted_StronglySorted in Hs; [|intros ???; lia].
  apply StronglySorted_Sorted.
  induction Hs as [|x l Hs IH Hall]; [constructor|].
  apply NoDup_cons in Hnd as [Hx Hnd].
  constructor; [auto|].
  rewrite Forall_forall in Hall |- *. intros z Hz.
  specialize (Hall z Hz). assert (z ≠ x) by (intros ->; done). lia.
Qed.

Lemma merge_sort_remove_dups_lt idx : Sorted Z.lt (merge_sort Z.le (remove_dups idx)).
Proof.
  apply Sorted_le_NoDup_lt.
  - apply (Sorted_merge_sort Z.le).
  - rewrite merge_sort_Permutation. apply NoDup_remove_dups.
Qed.

End SeriesFacts.

(** ** The per-country table (main.py, lines 74-76) *)

Lemma country_frame_index mc gdp :
  df_index (country_frame mc gdp) = union_indexes [mc.*1; gdp.*1].
Proof. reflexivity. Qed.

(** The table is an outer join: its years are those of either series. *)
Lemma country_frame_years mc gdp y :
  y ∈ df_index (country_frame mc gdp) ↔ y ∈ mc.*1 ∨ y ∈ gdp.*1.
Proof.
  rewrite country_frame_index, elem_of_union_indexes. split.
  - intros (i & Hi & Hy).
    apply elem_of_cons in Hi as [->|Hi]; [by left|].
    apply elem_of_cons in Hi as [->|Hi]; [by right|].
    by apply elem_of_nil in Hi.
  - intros [H|H]; [exists mc.*1 | exists gdp.*1];
      (split; [repeat (apply elem_of_cons; auto; right) | done]);
      apply elem_of_cons; auto.
Qed.

Lemma country_frame_buffett mc gdp y :
  df_cell (country_frame mc gdp) "buffett" y =
    if decide (y ∈ df_index (country_frame mc gdp))
    then Some (PrimFloat.div (cell_of mc y) (cell_of gdp y)) else None.
Proof.
  unfold df_cell, series_of. rewrite country_frame_index.
  set (idx := union_indexes _).
  change (assoc "buffett" (df_columns (country_frame mc gdp)))
    with (Some (col_div (reindex mc idx) (reindex gdp idx))).
  unfold reindex. rewrite col_div_fmap. apply at_label_zip_fmap.
Qed.

(** C1, as the code has it.  At every year of the outer join the ratio cell
    is the float quotient of the two aligned cells.  It is therefore absent
    wherever the market cap or the GDP is absent; but a zero GDP under a
    market cap that is present and not zero gives an infinity, which is a
    populated cell, not an absent one. *)
Theorem country_frame_ratio mc gdp y :
  y ∈ df_index (country_frame mc gdp) →
  let m := cell_of mc y in
  let g := cell_of gdp y in
  df_cell (country_frame mc gdp) "buffett" y = Some (PrimFloat.div m g)
  ∧ (isna m = true ∨ isna g = true → isna (PrimFloat.div m g) = true)
  ∧ (isna m = false → PrimFloat.eqb m zero = false → PrimFloat.eqb g zero = true →
     isna (PrimFloat.div m g) = false).
Proof.
  intros Hy m g. split; [|split].
  - rewrite country_frame_buffett. by rewrite decide_True.
  - intros [H|H]; [by apply isna_div_l | by apply isna_div_r].
  - intros H1 H2 H3. by apply div_by_zero.
Qed.

Lemma country_frame_ratio_witness :
  2021 ∈ df_index (country_frame mc_2020_2021 gdp_2020_2021)
  ∧ df_cell (country_frame mc_2020_2021 gdp_2020_2021) "buffett" 2021
    = Some (PrimFloat.div 110 0).
Proof.
  assert (2021 ∈ df_index (country_frame mc_2020_2021 gdp_2020_2021)) as H.
  { apply country_frame_years. left. cbn. rewrite !elem_of_cons. auto. }
  split; [exact H|].
  exact (proj1 (country_frame_ratio mc_2020_2021 gdp_2020_2021 2021 H)).
Defined.

(** C1 as stated fails on its own example: with a zero GDP in 2021 the ratio
    cell of 2021 is populated (it is [inf]). *)
Lemma country_frame_ratio_zero_gdp :
  ¬ (∀ y r,
       df_cell (country_frame mc_2020_2021 gdp_2020_2021) "buffett" y = Some r →
       isna r = false →
       ∃ m g, at_label mc_2020_2021 y = Some m ∧ at_label gdp_2020_2021 y = Some g
              ∧ isna m = false ∧ isna g = false ∧ PrimFloat.eqb g zero = false).
Proof.
  intros H.
  destruct (H 2021 infinity eq_refl eq_refl) as (m & g & _ & Hg & _ & _ & Hz).
  vm_compute in Hg. injection Hg as <-. vm_compute in Hz. discriminate.
Qed.

(** ** The combined table (main.py, lines 87-95) *)

Section CombineFacts.

Implicit Types (cd : list (string * DataFrame)) (frames : list (string * Series)).

Lemma assoc_fmap {A B} (g : A → B) (name : string) (l : list (string * A)) :
  assoc name ((λ f, (f.1, g f.2)) <$> l) = g <$> assoc name l.
Proof.
  induction l as [|[k v] l IH]; cbn; [done|].
  destruct (decide (name = k)); [done | apply IH].
Qed.

Lemma assoc_NoDup {A} (name : string) (v : A) (l : list (string * A)) :
  NoDup l.*1 → (name, v) ∈ l → assoc name l = Some v.
Proof.
  induction l as [|[k w] l IH]; cbn; intros Hnd Hin.
  - by apply elem_of_nil in Hin.
  - apply NoDup_cons in Hnd as [Hk Hnd].
    apply elem_of_cons in Hin as [[= -> ->]|Hin].
    + by rewrite decide_True.
    + rewrite decide_False; [auto|].
      intros ->. apply Hk. apply list_elem_of_fmap. by exists (k, v).
Qed.

Lemma collect_frames cd frames :
  Forall (λ kv, country_table kv.2) cd →
  for_each
    (λ (frames : list (string * Series)) (kv : string * DataFrame),
       col ←? getcol kv.2 "buffett";
       let s := series_of kv.2 (col_scale col 100) in
       inr (frames ++ [(kv.1, s)]))
    frames cd
  = inr (frames ++ ((λ kv, (kv.1, percent_series kv.2)) <$> cd)).
Proof.
  intros Hcd. revert frames.
  induction Hcd as [|[name df] cd H _ IH]; intros frames; cbn.
  - by rewrite app_nil_r.
  - destruct H as (_ & col & Hcol & _). cbn in Hcol.
    unfold getcol, percent_series at 1. cbn. rewrite Hcol. cbn.
    rewrite IH, <- app_assoc. done.
Qed.

(** Reading a cell of a country's Series of percents. *)
Lemma percent_series_cell df y :
  country_table df →
  (∀ r, df_cell df "buffett" y = Some r →
        cell_of (percent_series df) y = PrimFloat.mul r 100)
  ∧ (y ∉ df_index df → cell_of (percent_series df) y = nan)
  ∧ (y ∈ df_index df → is_Some (df_cell df "buffett" y))
  ∧ (percent_series df).*1 = df_index df.
Proof.
  intros (_ & col & Hcol & Hlen).
  unfold percent_series, df_cell, cell_of, series_of, col_scale. rewrite Hcol.
  rewrite at_label_zip_scale.
  assert ((zip (df_index df) col).*1 = df_index df) as Hfst
    by (by apply fst_zip_same_length).
  repeat split.
  - by intros r ->.
  - intros Hy. rewrite <- Hfst in Hy. apply at_label_None in Hy. by rewrite Hy.
  - intros Hy. apply at_label_is_Some. by rewrite Hfst.
  - apply fst_zip. rewrite length_fmap. lia.
Qed.

(** Sorting the rows of a concatenation: each column is the Series read at
    the sorted labels. *)
Lemma sort_concat frames :
  df_sort_index (pd_concat_axis1 frames)
  = let idx := merge_sort Z.le (remove_dups (concat ((λ f, f.2.*1) <$> frames))) in
    mkDataFrame idx ((λ f, (f.1, reindex f.2 idx)) <$> frames).
Proof.
  unfold df_sort_index, pd_concat_axis1, series_of. cbn.
  set (idx0 := remove_dups _). f_equal.
  rewrite <- list_fmap_compose. apply list_fmap_ext. intros i [name s] _. cbn.
  f_equal. unfold reindex. apply Forall_fmap_ext_1, Forall_forall. intros y Hy.
  rewrite merge_sort_Permutation in Hy.
  unfold cell_of at 1. rewrite at_label_zip_fmap. by rewrite decide_True.
Qed.

Lemma country_frame_table mc gdp :
  NoDup mc.*1 → NoDup gdp.*1 → country_table (country_frame mc gdp).
Proof.
  intros Hmc Hgdp. split.
  - rewrite country_frame_index. cbn. case_decide; [done|].
    rewrite merge_sort_Permutation. apply NoDup_remove_dups.
  - eexists. split; [reflexivity|].
    unfold col_div, reindex. rewrite length_zip_with, !length_fmap.
    rewrite country_frame_index. cbn. lia.
Qed.

(** C6.  For a non-empty dict of per-country tables, the combined table has
    the union of the tables' years as its row labels, in strictly ascending
    order; one column per country, named by the dict's key, in the dict's
    order; and the cell of a country at a year is that country's ratio times
    100, or NaN (absent) where the country's table lacks the year. *)
Theorem combine_countries_to_df_spec cd :
  cd ≠ [] → NoDup cd.*1 → Forall (λ kv, country_table kv.2) cd →
  ∃ out,
    combine_countries_to_df cd = inr out
    ∧ Sorted Z.lt (df_index out)
    ∧ (∀ y, y ∈ df_index out ↔ ∃ kv, kv ∈ cd ∧ y ∈ df_index kv.2)
    ∧ (df_columns out).*1 = cd.*1
    ∧ ∀ name df y,
        (name, df) ∈ cd → y ∈ df_index out →
        (∀ r, df_cell df "buffett" y = Some r →
              df_cell out name y = Some (PrimFloat.mul r 100))
        ∧ (y ∈ df_index df → is_Some (df_cell df "buffett" y))
        ∧ (y ∉ df_index df →
           df_cell out name y = Some nan ∧ isna nan = true).
Proof.
  intros Hne Hnames Htab.
  set (frames := (λ kv : string * DataFrame, (kv.1, percent_series kv.2)) <$> cd).
  set (idx := merge_sort Z.le (remove_dups (concat ((λ f, f.2.*1) <$> frames)))).
  exists (mkDataFrame idx ((λ f, (f.1, reindex f.2 idx)) <$> frames)).
  assert (∀ y, y ∈ idx ↔ ∃ kv, kv ∈ cd ∧ y ∈ df_index kv.2) as Hidx.
  { intros y. unfold idx.
    rewrite merge_sort_Permutation, elem_of_remove_dups, elem_of_concat.
    unfold frames. rewrite <- list_fmap_compose. split.
    - intros (l & (kv & -> & Hkv)%list_elem_of_fmap & Hy). exists kv. split; [done|].
      rewrite Forall_forall in Htab.
      destruct (percent_series_cell kv.2 y (Htab kv Hkv)) as (_ & _ & _ & <-). done.
    - intros (kv & Hkv & Hy). exists (percent_series kv.2).*1. split.
      + apply list_elem_of_fmap. by exists kv.
      + rewrite Forall_forall in Htab.
        destruct (percent_series_cell kv.2 y (Htab kv Hkv)) as (_ & _ & _ & ->). done. }
  split; [|split; [|split; [|split]]].
  - unfold combine_countries_to_df. rewrite collect_frames by done. cbn.
    fold frames.
    assert (frames ≠ []) as Hfr by (unfold frames; by destruct cd).
    pose proof (sort_concat frames) as Hsort. cbn zeta in Hsort. fold idx in Hsort.
    rewrite <- Hsort. by destruct frames.
  - apply merge_sort_remove_dups_lt.
  - exact Hidx.
  - cbn. unfold frames. rewrite <- !list_fmap_compose. done.
  - intros name df y Hin Hy. cbn in Hy.
    rewrite Forall_forall in Htab.
    destruct (percent_series_cell df y (Htab _ Hin)) as (Hr & Hno & Hsome & _).
    assert (df_cell (mkDataFrame idx ((λ f, (f.1, reindex f.2 idx)) <$> frames)) name y
            = Some (cell_of (percent_series df) y)) as Hcell.
    { unfold df_cell, series_of. cbn.
      rewrite (assoc_fmap (λ s, reindex s idx)).
      unfold frames. rewrite (assoc_fmap percent_series).
      rewrite (assoc_NoDup name df cd) by done. cbn.
      unfold reindex. rewrite at_label_zip_fmap. by rewrite decide_True. }
    split; [|split].
    + intros r Hrr. by rewrite Hcell, (Hr r).
    + done.
    + intros Hy'. by rewrite Hcell, Hno.
Qed.

End CombineFacts.

(** Labels written out in full are distinct by inspection. *)
Ltac solve_NoDup :=
  cbn;
  repeat (apply NoDup_cons_2;
          [rewrite ?not_elem_of_cons; repeat split;
           first [apply not_elem_of_nil | done | lia] |]);
  apply NoDup_nil_2.

Lemma tables_A_B_ok :
  tables_A_B ≠ [] ∧ NoDup tables_A_B.*1
  ∧ Forall (λ kv, country_table kv.2) tables_A_B.
Proof.
  split; [done|]. split; [solve_NoDup|].
  repeat (apply Forall_cons_2; [apply country_frame_table; solve_NoDup|]).
  apply Forall_nil_2.
Qed.

Lemma combine_countries_to_df_spec_witness :
  ∃ out, combine_countries_to_df tables_A_B = inr out
         ∧ df_index out = [2019; 2020; 2021]
         ∧ df_cell out "A" 2019 = Some 25%float
         ∧ df_cell out "B" 2019 = Some nan
         ∧ df_cell out "A" 2021 = Some nan
         ∧ df_cell out "B" 2021 = Some 25%float.
Proof.
  destruct tables_A_B_ok as (H1 & H2 & H3).
  destruct (combine_countries_to_df_spec tables_A_B H1 H2 H3) as (out & Hout & _).
  exists out. split; [exact Hout|].
  vm_compute in Hout. injection Hout as <-. repeat split.
Defined.

(** C7.  The empty dict gives [pd.DataFrame()]: no rows, no columns, and no
    exception. *)
Theorem combine_countries_to_df_empty :
  combine_countries_to_df [] = inr empty_frame
  ∧ df_index empty_frame = [] ∧ df_columns empty_frame = [].
Proof. repeat split. Qed.

(** ** From the response body to the Series (main.py, lines 47-58) *)

Section BodyFacts.

Implicit Types (values : gmap Z (option float)) (items : list json)
  (ps : list (Z * option float)).








Lemma pd_Series_labels values : (pd_Series values).*1 = (map_to_list values).*1.
Proof. unfold pd_Series. rewrite <- list_fmap_compose. done. Qed.

Lemma sort_index_labels_NoDup values : NoDup (sort_index (pd_Series values)).*1.
Proof.
  unfold sort_index. rewrite merge_sort_Permutation, pd_Series_labels.
  apply NoDup_fst_map_to_list.
Qed.


(** A body that is not a list of at least two elements is "no data". *)
Lemma series_of_data_no_data data :
  (∀ items, data = JArr items → (length items < 2)%nat) →
  series_of_data data = inr empty_series.
Proof.
  intros H. unfold series_of_data.
  destruct data as [| | | | |items|]; try done. cbn.
  specialize (H items eq_refl).
  destruct (Z.ltb_spec (Z.of_nat (length items)) 2); [done | lia].
Qed.

(** A body of the expected shape goes through the loop. *)
Lemma series_of_data_records meta records rest :
  series_of_data (JArr (meta :: records :: rest))
  = (items ←? py_iter records;
     values ←? for_each record_step ∅ items;
     inr (sort_index (pd_Series values))).
Proof.
  unfold series_of_data. cbn.
  destruct (Z.ltb_spec (Z.of_nat (S (S (length rest)))) 2); [lia | done].
Qed.

End BodyFacts.

(** ** The fetcher (main.py, lines 33-58) *)

Section FetchFacts.

Variable now_year : Z.
Variable remote : list event → string → params → result response.

#[local] Abbreviation fetch := (_fetch_indicator_for_country now_year remote).

(** Whatever the years, the fetcher sends its one request and hands the reply
    to [decode]. *)
Lemma fetch_unfold iso ind start_year end_year log :
  let url := request_url iso ind in
  let p := request_params start_year (default now_year end_year) in
  fetch iso ind start_year end_year log = (decode (remote log url p), log ++ [Get url p]).
Proof.
  cbn. unfold _fetch_indicator_for_country, bind, requests_get, lift, decode.
  fold (request_url iso ind). fold (request_params start_year (default now_year end_year)).
  destruct (remote log _ _) as [e|resp]; cbn; [done|].
  destruct (raise_for_status resp) as [e|[]]; cbn; [done|].
  destruct (resp_json resp) as [e|data]; cbn; done.
Qed.

Lemma decode_ok resp data :
  raise_for_status resp = inr tt → body resp = Some data →
  decode (inr resp) = series_of_data data.
Proof. unfold decode, resp_json. cbn. by intros -> ->. Qed.

Lemma calls_snoc_get log url p : calls (log ++ [Get url p]) = S (calls log).
Proof.
  unfold calls. rewrite filter_app, length_app, filter_cons_True by done.
  cbn. lia.
Qed.

Lemma calls_snoc_sleep log : calls (log ++ [Sleep]) = calls log.
Proof.
  unfold calls. rewrite filter_app, length_app, filter_cons_False by (cbn; tauto).
  cbn. lia.
Qed.







(** C4.  When the request succeeds and the body is JSON but not a list of at
    least two elements, the fetcher returns the empty Series and raises
    nothing. *)
Theorem fetch_no_data iso ind start_year end_year log resp data :
  let url := request_url iso ind in
  let p := request_params start_year (default now_year end_year) in
  remote log url p = inr resp →
  raise_for_status resp = inr tt →
  body resp = Some data →
  (∀ items, data = JArr items → (length items < 2)%nat) →
  fetch iso ind start_year end_year log = (inr empty_series, log ++ [Get url p]).
Proof.
  intros url p Hr Hs Hb Hd. rewrite fetch_unfold. fold url p. f_equal.
  rewrite Hr, (decode_ok _ _ Hs Hb). by apply series_of_data_no_data.
Qed.

(** C5, as the code has it.  The fetcher checks nothing about the years:
    whatever [start_year] and [end_year] are, it sends exactly one request,
    whose [date] parameter is "start:end", and its outcome is the decoded
    reply. *)
Theorem fetch_no_year_check iso ind start_year end_year log :
  let url := request_url iso ind in
  let p := request_params start_year (default now_year end_year) in
  fetch iso ind start_year end_year log = (decode (remote log url p), log ++ [Get url p])
  ∧ p_date p = pretty start_year +:+ ":" +:+ pretty (default now_year end_year)
  ∧ calls (fetch iso ind start_year end_year log).2 = S (calls log).
Proof.
  intros url p. split; [apply fetch_unfold|]. split; [done|].
  rewrite fetch_unfold. apply calls_snoc_get.
Qed.




(** ** The loop over countries (main.py, lines 60-79) *)

#[local] Abbreviation step start_year end_year :=
  (country_step now_year remote start_year end_year).

Lemma country_step_unsupported start_year end_year result name log :
  assoc name TOP10_COUNTRIES = None →
  step start_year end_year result name log
  = (inl (ValueError (unsupported_msg name)), log).
Proof. unfold country_step. by intros ->. Qed.

(** One country costs at most two requests, and exactly two when its turn of
    the loop completes. *)
Lemma country_step_calls start_year end_year result name log :
  let out := step start_year end_year result name log in
  (calls out.2 ≤ calls log + 2)%nat
  ∧ (returned out.1 → calls out.2 = (calls log + 2)%nat).
Proof.
  assert (∃ r log', step start_year end_year result name log = (r, log')
                    ∧ (calls log' ≤ calls log + 2)%nat
                    ∧ (returned r → calls log' = (calls log + 2)%nat))
    as (r & log' & -> & H); [|exact H].
  unfold country_step, returned.
  destruct (assoc name TOP10_COUNTRIES) as [iso|].
  - unfold bind at 1. rewrite fetch_unfold.
    destruct (decode _) as [e|mc].
    { eexists _, _. split; [done|]. rewrite calls_snoc_get.
      split; [lia | by intros [? [=]]]. }
    unfold bind at 1. rewrite fetch_unfold.
    destruct (decode _) as [e|gdp].
    { eexists _, _. split; [done|]. rewrite !calls_snoc_get.
      split; [lia | by intros [? [=]]]. }
    unfold bind, time_sleep, ret. eexists _, _. split; [done|].
    rewrite calls_snoc_sleep, !calls_snoc_get. split; [lia | intros _; lia].
  - unfold raise. eexists _, _. split; [done|]. split; [lia | by intros [? [=]]].
Qed.

Lemma for_each_M_app {A S} (f : S → A → M S) s (l1 l2 : list A) log :
  for_each_M f s (l1 ++ l2) log
  = match for_each_M f s l1 log with
    | (inl e, log') => (inl e, log')
    | (inr s', log') => for_each_M f s' l2 log'
    end.
Proof.
  revert s log. induction l1 as [|x l1 IH]; intros s log; cbn; [done|].
  unfold bind. destruct (f s x log) as [[e|s'] log']; [done | apply IH].
Qed.

Lemma for_each_step_calls start_year end_year names result log :
  let out := for_each_M (step start_year end_year) result names log in
  (calls out.2 ≤ calls log + 2 * length names)%nat
  ∧ (returned out.1 → calls out.2 = (calls log + 2 * length names)%nat).
Proof.
  revert result log. induction names as [|name names IH]; intros result log.
  - cbn [for_each_M ret fst snd length]. split; [lia | intros _; lia].
  - cbn [for_each_M length]. unfold bind.
    pose proof (country_step_calls start_year end_year result name log) as [Hle Heq].
    destruct (step start_year end_year result name log) as [[e|result'] log'];
      cbn [fst snd] in *.
    + split; [lia | by intros [? [=]]].
    + specialize (Heq (ex_intro _ result' eq_refl)).
      destruct (IH result' log') as [IHle IHeq].
      split; [lia | intros H; rewrite (IHeq H); lia].
Qed.

(** C2, as the code has it.  A list with an unsupported name never yields a
    result.  The name is checked when its turn comes: if the turns of the
    names before it complete, the failure is the [ValueError] naming it, raised
    after two requests for each of those names and none for it or for the
    names after it; no request at all is sent only when nothing precedes
    it. *)
Theorem fetch_for_countries_unsupported before bad after start_year end_year log :
  assoc bad TOP10_COUNTRIES = None →
  let out := fetch_for_countries now_year remote (before ++ bad :: after)
               start_year end_year log in
  raised out.1
  ∧ (calls out.2 ≤ calls log + 2 * length before)%nat
  ∧ (∀ result log',
       fetch_for_countries now_year remote before start_year end_year log
       = (inr result, log') →
       out = (inl (ValueError (unsupported_msg bad)), log')
       ∧ calls log' = (calls log + 2 * length before)%nat)
  ∧ (before = [] → out = (inl (ValueError (unsupported_msg bad)), log)).
Proof.
  intros Hbad out. subst out. unfold fetch_for_countries. rewrite for_each_M_app.
  pose proof (for_each_step_calls start_year end_year before [] log) as [Hle Heq].
  destruct (for_each_M (step start_year end_year) [] before log)
    as [[e|result] log'] eqn:E; cbn [fst snd] in *.
  - split; [by eexists|]. split; [done|]. split; [done|].
    intros ->. discriminate.
  - cbn [for_each_M]. unfold bind. rewrite country_step_unsupported by done.
    cbn [fst snd].
    specialize (Heq (ex_intro _ result eq_refl)).
    split; [by eexists|]. split; [lia|]. split.
    + by intros result0 log0 [= <- <-].
    + intros ->. by injection E as <- <-.
Qed.

End FetchFacts.

(** ** The facts on sample replies *)

Lemma fetch_no_data_witness :
  _fetch_indicator_for_country 2024 (remote_always body_message)
    "USA" MARKETCAP_IND 1990 None []
  = (inr empty_series,
     [Get (request_url "USA" MARKETCAP_IND) (request_params 1990 2024)]).
Proof.
  apply (fetch_no_data 2024 (remote_always body_message) "USA" MARKETCAP_IND
           1990 None [] (mkResponse 200 (Some body_message)) body_message);
    try reflexivity.
  intros items [= <-]. cbn. lia.
Defined.

(** C5 as stated fails: with the start year after the end year, or before
    1990, the request is sent all the same and nothing is raised. *)
Lemma fetch_reversed_years :
  let out := _fetch_indicator_for_country 2024 (remote_always body_message)
               "USA" MARKETCAP_IND 2020 (Some 1800) [] in
  out = (inr empty_series,
         [Get (request_url "USA" MARKETCAP_IND) (request_params 2020 1800)])
  ∧ calls out.2 = 1%nat
  ∧ ¬ (raised out.1 ∧ calls out.2 = 0%nat).
Proof.
  split; [reflexivity|]. split; [reflexivity|]. intros [_ H]. discriminate.
Qed.






Lemma fetch_for_countries_unsupported_witness :
  let out := fetch_for_countries 2024 (remote_always body_message)
               ["Japan"; "Atlantis"; "China"] 1990 None [] in
  raised out.1 ∧ (calls out.2 ≤ 2)%nat.
Proof.
  destruct (fetch_for_countries_unsupported 2024 (remote_always body_message)
              ["Japan"] "Atlantis" ["China"] 1990 None [] eq_refl)
    as (H1 & H2 & _).
  split; [exact H1 | exact H2].
Defined.

(** C2 as stated fails when a supported name comes first: both indicators of
    Japan are requested before "Atlantis" is looked up and rejected. *)
Lemma fetch_for_countries_calls_before_error :
  let out := fetch_for_countries 2024 (remote_always body_message)
               ["Japan"; "Atlantis"] 1990 None [] in
  out.1 = inl (ValueError "Country 'Atlantis' not in TOP10_COUNTRIES mapping.")
  ∧ calls out.2 = 2%nat
  ∧ ¬ (calls out.2 = 0%nat).
Proof.
  split; [reflexivity|]. split; [reflexivity|]. discriminate.
Qed.

(** ** Linear interpolation of a column (Home.py, line 56) *)

Section InterpolateFacts.

Implicit Types (col gap : list float) (samples : list (nat * float)) (o i j k : nat).

#[local] Open Scope nat_scope.

Lemma valid_samples_from col : valid_samples col = samples_from 0 col.
Proof. done. Qed.

Lemma samples_from_nil o : samples_from o [] = [].
Proof. done. Qed.

Lemma samples_from_cons o v col :
  samples_from o (v :: col)
  = (if notna v then [(o, v)] else []) ++ samples_from (S o) col.
Proof.
  unfold samples_from. rewrite imap_cons, Nat.add_0_r.
  rewrite (imap_ext _ (λ i v, (S o + i, v))) by (intros; cbn; f_equal; lia).
  destruct (notna v) eqn:E.
  - by rewrite filter_cons_True.
  - by rewrite filter_cons_False by (cbn; congruence).
Qed.


Lemma samples_from_gap o gap : Forall (λ v, isna v = true) gap → samples_from o gap = [].
Proof.
  intros H. revert o. induction H as [|v gap Hv _ IH]; intros o; [done|].
  rewrite samples_from_cons, IH. unfold notna. by rewrite Hv.
Qed.

Lemma samples_from_bounds o col a :
  a ∈ samples_from o col → o ≤ a.1 < o + length col.
Proof.
  revert o. induction col as [|v col IH]; intros o.
  - intros H. by apply elem_of_nil in H.
  - rewrite samples_from_cons, elem_of_app. intros [H|H].
    + destruct (notna v); [|by apply elem_of_nil in H].
      apply list_elem_of_singleton in H as ->. cbn. lia.
    + apply IH in H. cbn. lia.
Qed.






Lemma samples_from_le o col x :
  o + length col ≤ S x → Forall (λ a, a.1 ≤ x) (samples_from o col).
Proof.
  intros H. apply Forall_forall. intros a Ha%samples_from_bounds. lia.
Qed.





Lemma interpolate_1d_all_absent gap :
  Forall (λ v, isna v = true) gap → interpolate_1d gap = gap.
Proof.
  intros Hgap. unfold interpolate_1d.
  by rewrite valid_samples_from, (samples_from_gap _ gap Hgap).
Qed.


End InterpolateFacts.




(** * Further facts: error paths, invariants and the pages *)

(** ** The fetcher: statuses, failures and the order of the years
       (main.py, lines 33-58) *)

Section SortFacts.

#[local] Instance label_le_total : Total label_le.
Proof. intros a b. unfold label_le. lia. Qed.

Lemma Sorted_fmap_fst (s : Series) : Sorted label_le s → Sorted Z.le s.*1.
Proof.
  induction 1 as [|a s Hs IH Hhd]; cbn; constructor; [done|].
  destruct Hhd as [|b s Hab]; cbn; constructor. exact Hab.
Qed.

Lemma sort_index_sorted (values : gmap Z (option float)) :
  Sorted Z.lt (sort_index (pd_Series values)).*1.
Proof.
  apply Sorted_le_NoDup_lt.
  - apply Sorted_fmap_fst. apply (Sorted_merge_sort label_le).
  - apply sort_index_labels_NoDup.
Qed.

Lemma series_of_data_sorted data s :
  series_of_data data = inr s → Sorted Z.lt s.*1.
Proof.
  unfold series_of_data.
  destruct (negb (isinstance_list data)); cbn.
  { intros [= <-]. constructor. }
  destruct (py_len data) as [e|len]; cbn; [done|].
  destruct (len <? 2); [intros [= <-]; constructor|].
  destruct (getitem_int data 1) as [e|records]; cbn; [done|].
  destruct (py_iter records) as [e|items]; cbn; [done|].
  destruct (for_each record_step ∅ items) as [e|values]; cbn; [done|].
  intros [= <-]. apply sort_index_sorted.
Qed.

Lemma Sorted_lt_NoDup (idx : list Z) : Sorted Z.lt idx → NoDup idx.
Proof.
  intros H. apply Sorted_StronglySorted in H; [|intros ???; lia].
  induction H as [|x l _ IH Hall]; constructor; [|done].
  intros Hx. rewrite Forall_forall in Hall. specialize (Hall x Hx). lia.
Qed.

End SortFacts.

Section FetchPaths.

Variable now_year : Z.
Variable remote : list event → string → params → result response.

#[local] Abbreviation fetch := (_fetch_indicator_for_country now_year remote).

(** X1.  When the service answers with a status from 400 to 599, the fetch
    raises [HTTPError] with that status, after its one request.  Every other
    status, 1xx and 3xx included, passes [raise_for_status], and the body is
    decoded as for a success. *)
Theorem fetch_http_status iso ind start_year end_year log resp :
  let url := request_url iso ind in
  let p := request_params start_year (default now_year end_year) in
  remote log url p = inr resp →
  (400 ≤ status_code resp < 600 →
   fetch iso ind start_year end_year log
   = (inl (HTTPError (status_code resp)), log ++ [Get url p]))
  ∧ (status_code resp < 400 ∨ 600 ≤ status_code resp →
     fetch iso ind start_year end_year log
     = ((data ←? resp_json resp; series_of_data data), log ++ [Get url p])).
Proof.
  intros url p Hr. rewrite fetch_unfold. fold url p. rewrite Hr.
  unfold decode, raise_for_status. cbn [rbind].
  split; intros H.
  - destruct (Z.leb_spec 400 (status_code resp)); [|lia].
    destruct (Z.ltb_spec (status_code resp) 600); [|lia]. done.
  - destruct (Z.leb_spec 400 (status_code resp));
      destruct (Z.ltb_spec (status_code resp) 600); cbn; try done; lia.
Qed.

(** X2.  A failure of the transport is raised as it is, and a body that is
    not JSON raises [JSONDecodeError].  In both cases the one request has
    been made; nothing is caught and nothing is tried again. *)
Theorem fetch_reply_errors iso ind start_year end_year log :
  let url := request_url iso ind in
  let p := request_params start_year (default now_year end_year) in
  (∀ e, remote log url p = inl e →
        fetch iso ind start_year end_year log = (inl e, log ++ [Get url p]))
  ∧ (∀ resp, remote log url p = inr resp →
             raise_for_status resp = inr tt →
             body resp = None →
             fetch iso ind start_year end_year log
             = (inl JSONDecodeError, log ++ [Get url p])).
Proof.
  intros url p. split.
  - intros e Hr. rewrite fetch_unfold. fold url p. by rewrite Hr.
  - intros resp Hr Hs Hb. rewrite fetch_unfold. fold url p. rewrite Hr.
    unfold decode, resp_json. cbn [rbind]. by rewrite Hs, Hb.
Qed.

Lemma decode_sorted reply s : decode reply = inr s → Sorted Z.lt s.*1.
Proof.
  unfold decode. destruct reply as [e|resp]; cbn; [done|].
  destruct (raise_for_status resp) as [e|[]]; cbn; [done|].
  destruct (resp_json resp) as [e|data]; cbn; [done|].
  apply series_of_data_sorted.
Qed.



Lemma for_each_first_raise good bad after e values :
  Forall (λ item, returned (read_record item)) good →
  read_record bad = inl e →
  for_each record_step values (good ++ bad :: after) = inl e.
Proof.
  intros Hgood Hbad. revert values.
  induction Hgood as [|item good [p Hp] _ IH]; intros values; cbn.
  - unfold record_step. by rewrite Hbad.
  - unfold record_step at 1. rewrite Hp. cbn. apply IH.
Qed.

(** X5.  The loop over the records stops at the first record that cannot be
    read: the fetch raises the exception of that record, after its one
    request, whatever the records after it are. *)
Theorem fetch_first_bad_record iso ind start_year end_year log resp meta good bad after rest e :
  let url := request_url iso ind in
  let p := request_params start_year (default now_year end_year) in
  remote log url p = inr resp →
  raise_for_status resp = inr tt →
  body resp = Some (JArr (meta :: JArr (good ++ bad :: after) :: rest)) →
  Forall (λ item, returned (read_record item)) good →
  read_record bad = inl e →
  fetch iso ind start_year end_year log = (inl e, log ++ [Get url p]).
Proof.
  intros url p Hr Hst Hb Hgood Hbad. rewrite fetch_unfold. fold url p.
  rewrite Hr, (decode_ok _ _ Hst Hb), series_of_data_records. cbn [py_iter rbind].
  by rewrite (for_each_first_raise good bad after e ∅ Hgood Hbad).
Qed.

(** X6.  A reply whose second element is not a list of records (null, a
    number, a boolean, a non-empty object or a non-empty string) makes the
    fetch raise [TypeError]: the soft return of an empty Series covers the
    top level of the body only. *)
Theorem fetch_no_records iso ind start_year end_year log resp meta records rest :
  let url := request_url iso ind in
  let p := request_params start_year (default now_year end_year) in
  remote log url p = inr resp →
  raise_for_status resp = inr tt →
  body resp = Some (JArr (meta :: records :: rest)) →
  no_records records →
  fetch iso ind start_year end_year log = (inl TypeError, log ++ [Get url p]).
Proof.
  intros url p Hr Hst Hb Hrec. rewrite fetch_unfold. fold url p.
  rewrite Hr, (decode_ok _ _ Hst Hb), series_of_data_records. f_equal.
  destruct records as [| | | |s|items|fields]; cbn in Hrec |- *; try done.
  - destruct s as [|c s]; [done|]. reflexivity.
  - destruct fields as [|[k v] fields]; [done|]. reflexivity.
Qed.

End FetchPaths.

Lemma fetch_http_status_witness :
  _fetch_indicator_for_country 2024 (remote_status 404 body_message)
    "USA" GDP_IND 1990 None []
  = (inl (HTTPError 404),
     [Get (request_url "USA" GDP_IND) (request_params 1990 2024)]).
Proof.
  apply (fetch_http_status 2024 (remote_status 404 body_message) "USA" GDP_IND
           1990 None [] (mkResponse 404 (Some body_message)) eq_refl).
  cbn. lia.
Defined.



Lemma fetch_first_bad_record_witness :
  _fetch_indicator_for_country 2024 (remote_always body_bad_value)
    "JPN" GDP_IND 1990 None []
  = (inl (ValueError "could not convert string to float"),
     [Get (request_url "JPN" GDP_IND) (request_params 1990 2024)]).
Proof.
  apply (fetch_first_bad_record 2024 (remote_always body_bad_value) "JPN" GDP_IND
           1990 None [] (mkResponse 200 (Some body_bad_value)) JNull
           [wb_record "2019" (JInt 1)] (wb_record "2020" (JStr "n/a"))
           [JObj [("date", JStr "2021")]] []
           (ValueError "could not convert string to float")
           eq_refl eq_refl eq_refl).
  - repeat constructor. by eexists.
  - reflexivity.
Defined.

Lemma fetch_no_records_witness :
  _fetch_indicator_for_country 2024 (remote_always body_no_records)
    "JPN" GDP_IND 1990 None []
  = (inl TypeError, [Get (request_url "JPN" GDP_IND) (request_params 1990 2024)]).
Proof.
  apply (fetch_no_records 2024 (remote_always body_no_records) "JPN" GDP_IND
           1990 None [] (mkResponse 200 (Some body_no_records))
           (JObj [("total", JInt 0)]) JNull [] eq_refl eq_refl eq_refl).
  exact I.
Defined.

(** ** The loop over countries and the combined table
       (main.py, lines 60-95) *)

Section DictFacts.

Context {A : Type}.
Implicit Types (d : list (string * A)) (k : string) (v : A).

Lemma dict_set_keys k v d :
  (dict_set k v d).*1 = if decide (k ∈ d.*1) then d.*1 else d.*1 ++ [k].
Proof.
  induction d as [|[k' v'] d IH]; cbn.
  - by rewrite decide_False by apply not_elem_of_nil.
  - destruct (decide (k = k')) as [->|Hne]; cbn.
    + rewrite decide_True; [done | apply elem_of_cons; auto].
    + rewrite IH. destruct (decide (k ∈ d.*1)).
      * rewrite decide_True; [done | apply elem_of_cons; auto].
      * rewrite decide_False; [done | rewrite elem_of_cons; tauto].
Qed.

Lemma dict_set_elem_of k v d k' : k' ∈ (dict_set k v d).*1 ↔ k' = k ∨ k' ∈ d.*1.
Proof.
  rewrite dict_set_keys. destruct (decide (k ∈ d.*1)).
  - split; [auto | intros [->|]; done].
  - rewrite elem_of_app, list_elem_of_singleton. tauto.
Qed.

Lemma dict_set_NoDup k v d : NoDup d.*1 → NoDup (dict_set k v d).*1.
Proof.
  intros H. rewrite dict_set_keys. destruct (decide (k ∈ d.*1)); [done|].
  apply NoDup_app. split; [done|]. split.
  - intros x Hx ->%list_elem_of_singleton. done.
  - apply NoDup_singleton.
Qed.

Lemma dict_set_Forall (P : A → Prop) k v d :
  P v → Forall (λ kv, P kv.2) d → Forall (λ kv, P kv.2) (dict_set k v d).
Proof.
  intros Hv. induction 1 as [|[k' v'] d H Hd IH]; cbn.
  - by repeat constructor.
  - destruct (decide (k = k')); constructor; done.
Qed.

(** [d[k] = v] followed by [d[k]]. *)
Lemma dict_set_assoc k v d : assoc k (dict_set k v d) = Some v.
Proof.
  induction d as [|[k' v'] d IH]; cbn.
  - by rewrite decide_True.
  - destruct (decide (k = k')) as [->|Hne]; cbn.
    + by rewrite decide_True.
    + by rewrite decide_False.
Qed.

Lemma dict_set_assoc_ne k k' v d : k' ≠ k → assoc k' (dict_set k v d) = assoc k' d.
Proof.
  intros Hne. induction d as [|[k0 v0] d IH]; cbn.
  - by rewrite decide_False.
  - destruct (decide (k = k0)) as [->|Hne0]; cbn.
    + by rewrite !decide_False.
    + destruct (decide (k' = k0)); done.
Qed.

End DictFacts.

Section FrameFacts.

Lemma union_indexes_sorted (a b : list Z) :
  Sorted Z.lt a → Sorted Z.lt (union_indexes [a; b]).
Proof.
  intros Ha. cbn. case_decide; [done | apply merge_sort_remove_dups_lt].
Qed.

Lemma country_frame_shape mc gdp :
  Sorted Z.lt mc.*1 → country_shape (country_frame mc gdp).
Proof.
  intros Hmc. split; [|split].
  - rewrite country_frame_index. by apply union_indexes_sorted.
  - reflexivity.
  - rewrite country_frame_index. set (idx := union_indexes _).
    change (df_columns (country_frame mc gdp))
      with [("market_cap", reindex mc idx); ("gdp", reindex gdp idx);
            ("buffett", col_div (reindex mc idx) (reindex gdp idx))].
    repeat constructor; cbn; unfold col_div, reindex;
      rewrite ?length_zip_with, !length_fmap; lia.
Qed.

Lemma country_shape_table df : country_shape df → country_table df.
Proof.
  intros (Hs & Hnames & Hlen). split; [by apply Sorted_lt_NoDup|].
  destruct (df_columns df) as [|[n1 c1] [|[n2 c2] [|[n3 c3] [|]]]]; try done.
  injection Hnames as -> -> ->. exists c3. split; [reflexivity|].
  apply Forall_cons in Hlen as [_ Hlen]. apply Forall_cons in Hlen as [_ Hlen].
  by apply Forall_cons in Hlen as [Hlen _].
Qed.

End FrameFacts.

Section LoopFacts.

Variable now_year : Z.
Variable remote : list event → string → params → result response.

#[local] Abbreviation step start_year end_year :=
  (country_step now_year remote start_year end_year).
#[local] Abbreviation run names start_year end_year :=
  (fetch_for_countries now_year remote names start_year end_year).

(** One turn of the loop for a supported name, spelled out. *)
Lemma country_step_supported start_year end_year result name iso log :
  assoc name TOP10_COUNTRIES = Some iso →
  let p := request_params start_year (default now_year end_year) in
  let u1 := request_url iso MARKETCAP_IND in
  let u2 := request_url iso GDP_IND in
  step start_year end_year result name log =
    match decode (remote log u1 p) with
    | inl e => (inl e, log ++ [Get u1 p])
    | inr mc =>
        match decode (remote (log ++ [Get u1 p]) u2 p) with
        | inl e => (inl e, log ++ [Get u1 p; Get u2 p])
        | inr gdp =>
            (inr (dict_set name (country_frame mc gdp) result),
             log ++ country_events start_year (default now_year end_year) iso)
        end
    end.
Proof.
  intros Hiso p u1 u2. unfold country_step. rewrite Hiso.
  unfold bind at 1. rewrite fetch_unfold. fold p u1.
  destruct (decode (remote log u1 p)) as [e|mc]; [done|].
  unfold bind at 1. rewrite fetch_unfold. fold p u2.
  destruct (decode (remote (log ++ [Get u1 p]) u2 p)) as [e|gdp].
  - by rewrite <- app_assoc.
  - unfold bind, time_sleep, ret, country_events. by rewrite <- !app_assoc.
Qed.

(** What a completed turn leaves behind. *)
Lemma country_step_returns start_year end_year result name log result' log' :
  step start_year end_year result name log = (inr result', log') →
  ∃ iso mc gdp,
    assoc name TOP10_COUNTRIES = Some iso
    ∧ Sorted Z.lt mc.*1
    ∧ result' = dict_set name (country_frame mc gdp) result
    ∧ log' = log ++ country_events start_year (default now_year end_year) iso.
Proof.
  destruct (assoc name TOP10_COUNTRIES) as [iso|] eqn:Hiso.
  - rewrite (country_step_supported _ _ _ _ iso) by done.
    destruct (decode _) as [e|mc] eqn:Hmc; [done|].
    destruct (decode (remote (log ++ _) _ _)) as [e|gdp]; [done|].
    intros [= <- <-]. exists iso, mc, gdp. split; [done|].
    split; [by eapply decode_sorted | done].
  - by rewrite country_step_unsupported.
Qed.

(** The loop, from any dict and log it starts with. *)
Lemma for_each_step_returns start_year end_year names result log result' log' :
  for_each_M (step start_year end_year) result names log = (inr result', log') →
  (∃ isos,
     Forall2 (λ name iso, assoc name TOP10_COUNTRIES = Some iso) names isos
     ∧ log' = log ++ concat (country_events start_year (default now_year end_year) <$> isos))
  ∧ (∀ name, name ∈ result'.*1 ↔ name ∈ names ∨ name ∈ result.*1)
  ∧ (NoDup result.*1 → NoDup result'.*1)
  ∧ (NoDup names → (∀ name, name ∈ names → name ∉ result.*1) →
     result'.*1 = result.*1 ++ names)
  ∧ (Forall (λ kv, country_shape kv.2) result →
     Forall (λ kv, country_shape kv.2) result').
Proof.
  revert result log. induction names as [|name names IH]; intros result log.
  - cbn. intros [= <- <-]. split; [|split; [|split; [|split]]].
    + exists []. split; [constructor | by rewrite app_nil_r].
    + intros name. rewrite elem_of_nil. tauto.
    + done.
    + intros _ _. by rewrite app_nil_r.
    + done.
  - cbn [for_each_M]. unfold bind at 1.
    destruct (step start_year end_year result name log) as [[e|result1] log1] eqn:Hstep;
      [done|].
    apply country_step_returns in Hstep as (iso & mc & gdp & Hiso & Hmc & -> & ->).
    intros ((isos & Hisos & ->) & Hkeys & Hnd & Hord & Hshape)%IH.
    split; [|split; [|split; [|split]]].
    + exists (iso :: isos). split; [by constructor|].
      cbn [fmap list_fmap concat]. by rewrite <- !app_assoc.
    + intros name'. rewrite Hkeys, dict_set_elem_of, elem_of_cons. tauto.
    + intros H. by apply Hnd, dict_set_NoDup.
    + intros [Hname Hnames]%NoDup_cons Hfresh.
      rewrite Hord; [|done|].
      * rewrite dict_set_keys, decide_False, <- app_assoc; [done|].
        apply Hfresh, elem_of_cons. by left.
      * intros name' Hin. rewrite dict_set_elem_of. intros [->|Hin']; [done|].
        apply (Hfresh name'); [apply elem_of_cons; by right | done].
    + intros H. apply Hshape, dict_set_Forall; [by apply country_frame_shape | done].
Qed.

(** X7.  A run that returns has found every name in the mapping and caused,
    for each country in the order of the list, the request for the market
    capitalisation, the request for the GDP and one pause; the log holds
    nothing else. *)
Theorem fetch_for_countries_requests names start_year end_year log result log' :
  run names start_year end_year log = (inr result, log') →
  ∃ isos,
    Forall2 (λ name iso, assoc name TOP10_COUNTRIES = Some iso) names isos
    ∧ log' = log ++ concat (country_events start_year (default now_year end_year) <$> isos).
Proof. intros H. by apply for_each_step_returns in H as [H _]. Qed.

(** X8.  The dict a run returns has exactly the requested names as keys, each
    once, also when the list names a country several times; for a list
    without repetition the keys come in the order of the list. *)
Theorem fetch_for_countries_keys names start_year end_year log result log' :
  run names start_year end_year log = (inr result, log') →
  NoDup result.*1
  ∧ (∀ name, name ∈ result.*1 ↔ name ∈ names)
  ∧ (NoDup names → result.*1 = names).
Proof.
  intros H. apply for_each_step_returns in H as (_ & Hkeys & Hnd & Hord & _).
  split; [apply Hnd; constructor|]. split.
  - intros name. rewrite Hkeys. cbn. rewrite elem_of_nil. tauto.
  - intros Hn. rewrite Hord; [done..|]. intros ? _. apply not_elem_of_nil.
Qed.


Lemma country_events_count start_year end_year (isos : list string) :
  let evs := concat (country_events start_year end_year <$> isos) in
  length (filter is_get evs) = (2 * length isos)%nat
  ∧ length (filter (λ ev, is_get ev = false) evs) = length isos.
Proof.
  induction isos as [|iso isos [IH1 IH2]]; [done|].
  cbn [fmap list_fmap concat length]. cbn zeta in *.
  rewrite !filter_app, !length_app, IH1, IH2. unfold country_events.
  rewrite !(filter_cons_True is_get), !(filter_cons_False is_get) by (cbn; tauto).
  rewrite !(filter_cons_False (λ ev, is_get ev = false)) by (cbn; congruence).
  rewrite !(filter_cons_True (λ ev, is_get ev = false)) by done.
  cbn. split; lia.
Qed.

(** The loop completes when every name is supported and every reply decodes. *)
Lemma for_each_step_total start_year end_year names result log :
  Forall (λ name, is_Some (assoc name TOP10_COUNTRIES)) names →
  (∀ log url p, returned (decode (remote log url p))) →
  returned (for_each_M (step start_year end_year) result names log).1.
Proof.
  intros Hnames Hok. revert result log.
  induction Hnames as [|name names [iso Hiso] _ IH]; intros result log.
  - by eexists.
  - cbn [for_each_M]. unfold bind at 1.
    rewrite (country_step_supported _ _ _ _ iso) by done.
    destruct (Hok log (request_url iso MARKETCAP_IND)
                (request_params start_year (default now_year end_year))) as [mc ->].
    destruct (Hok (log ++ [Get (request_url iso MARKETCAP_IND)
                              (request_params start_year (default now_year end_year))])
                (request_url iso GDP_IND)
                (request_params start_year (default now_year end_year))) as [gdp ->].
    apply IH.
Qed.

(** X10.  When every name is supported and every reply decodes, the run
    returns, after exactly two requests and one pause per name of the
    list. *)
Theorem fetch_for_countries_returns names start_year end_year log :
  Forall (λ name, is_Some (assoc name TOP10_COUNTRIES)) names →
  (∀ log url p, returned (decode (remote log url p))) →
  ∃ result log',
    run names start_year end_year log = (inr result, log')
    ∧ calls log' = (calls log + 2 * length names)%nat
    ∧ length (filter (λ ev, is_get ev = false) log')
      = (length (filter (λ ev, is_get ev = false) log) + length names)%nat.
Proof.
  intros Hnames Hok.
  destruct (for_each_step_total start_year end_year names [] log Hnames Hok)
    as [result Hres].
  unfold fetch_for_countries.
  destruct (for_each_M _ _ _ _) as [r log'] eqn:E. cbn in Hres. subst r.
  exists result, log'. split; [done|].
  apply for_each_step_returns in E as ((isos & Hisos & ->) & _).
  apply Forall2_length in Hisos. rewrite Hisos.
  unfold calls. rewrite !filter_app, !length_app.
  destruct (country_events_count start_year (default now_year end_year) isos)
    as [-> ->].
  split; lia.
Qed.

(** X11.  When the turns of the names before have completed and a fetch of the
    next country raises, the run raises that exception: after one more
    request when the market-capitalisation fetch fails, after two when the
    GDP fetch fails.  The tables fetched so far are not returned, and no
    later country is requested. *)
Theorem fetch_for_countries_failure before name after iso start_year end_year
    log result log' :
  let p := request_params start_year (default now_year end_year) in
  let u1 := request_url iso MARKETCAP_IND in
  let u2 := request_url iso GDP_IND in
  run before start_year end_year log = (inr result, log') →
  assoc name TOP10_COUNTRIES = Some iso →
  (∀ e, decode (remote log' u1 p) = inl e →
        run (before ++ name :: after) start_year end_year log
        = (inl e, log' ++ [Get u1 p]))
  ∧ (∀ mc e, decode (remote log' u1 p) = inr mc →
             decode (remote (log' ++ [Get u1 p]) u2 p) = inl e →
             run (before ++ name :: after) start_year end_year log
             = (inl e, log' ++ [Get u1 p; Get u2 p])).
Proof.
  intros p u1 u2 Hbefore Hiso. unfold fetch_for_countries in *.
  split; [intros e He | intros mc e Hmc He];
    rewrite for_each_M_app, Hbefore; cbn [for_each_M]; unfold bind at 1;
    rewrite (country_step_supported _ _ _ _ iso) by done; fold p u1 u2.
  - by rewrite He.
  - by rewrite Hmc, He.
Qed.

(** X12.  What a run returns is always accepted by
    [combine_countries_to_df]: it raises nothing, the combined table has one
    column per key of the dict, in the dict's order, and its years are
    strictly ascending. *)
Theorem combine_after_fetch names start_year end_year log result log' :
  run names start_year end_year log = (inr result, log') →
  ∃ combined,
    combine_countries_to_df result = inr combined
    ∧ (df_columns combined).*1 = result.*1
    ∧ Sorted Z.lt (df_index combined).
Proof.
  intros H. apply for_each_step_returns in H as (_ & _ & _ & _ & Hshape).
  specialize (Hshape (Forall_nil_2 _)).
  assert (Forall (λ kv, country_table kv.2) result) as Htab.
  { eapply Forall_impl; [exact Hshape|]. intros kv. apply country_shape_table. }
  unfold combine_countries_to_df. rewrite collect_frames by done. cbn [app rbind].
  destruct result as [|kv result]; [by exists empty_frame; repeat split; constructor|].
  set (frames := _ <$> (kv :: result)).
  exists (df_sort_index (pd_concat_axis1 frames)). split; [done|].
  rewrite sort_concat. cbn zeta. cbn [df_columns df_index]. split.
  - unfold frames. rewrite <- !list_fmap_compose. done.
  - apply merge_sort_remove_dups_lt.
Qed.

End LoopFacts.

Section TableFacts.

(** X13.  [combine_countries_to_df] raises [KeyError] for "buffett" at the
    first table that has no column of that name, whatever the tables after
    it are. *)
Theorem combine_missing_column before name df after :
  Forall (λ kv, is_Some (assoc "buffett" (df_columns kv.2))) before →
  assoc "buffett" (df_columns df) = None →
  combine_countries_to_df (before ++ (name, df) :: after) = inl (KeyError "buffett").
Proof.
  intros Hbefore Hdf. unfold combine_countries_to_df.
  assert (∀ frames,
    for_each
      (λ (frames : list (string * Series)) (kv : string * DataFrame),
         col ←? getcol kv.2 "buffett";
         let s := series_of kv.2 (col_scale col 100) in
         inr (frames ++ [(kv.1, s)]))
      frames (before ++ (name, df) :: after) = inl (KeyError "buffett")) as ->;
    [|done].
  induction Hbefore as [|[n d] before [col Hcol] _ IH]; intros frames; cbn.
  - unfold getcol. cbn. by rewrite Hdf.
  - unfold getcol at 1. cbn in Hcol |- *. rewrite Hcol. cbn. apply IH.
Qed.

(** X14.  At every year of the per-country table the columns market_cap and
    gdp hold the values of the two fetched Series, and NaN where a Series
    lacks the year. *)
Theorem country_frame_columns mc gdp y :
  y ∈ df_index (country_frame mc gdp) →
  df_cell (country_frame mc gdp) "market_cap" y = Some (cell_of mc y)
  ∧ df_cell (country_frame mc gdp) "gdp" y = Some (cell_of gdp y)
  ∧ (y ∉ mc.*1 → isna (cell_of mc y) = true)
  ∧ (y ∉ gdp.*1 → isna (cell_of gdp y) = true).
Proof.
  intros Hy. rewrite country_frame_index in Hy.
  unfold df_cell, series_of. rewrite country_frame_index.
  set (idx := union_indexes _) in *.
  split; [|split; [|split]].
  - change (assoc "market_cap" (df_columns (country_frame mc gdp)))
      with (Some (reindex mc idx)).
    unfold reindex. rewrite at_label_zip_fmap. by rewrite decide_True.
  - change (assoc "gdp" (df_columns (country_frame mc gdp)))
      with (Some (reindex gdp idx)).
    unfold reindex. rewrite at_label_zip_fmap. by rewrite decide_True.
  - intros H%at_label_None. unfold cell_of. by rewrite H.
  - intros H%at_label_None. unfold cell_of. by rewrite H.
Qed.

End TableFacts.

Lemma fetch_for_countries_requests_witness :
  ∃ isos,
    Forall2 (λ name iso, assoc name TOP10_COUNTRIES = Some iso) ["Japan"; "India"] isos
    ∧ (fetch_for_countries 2024 (remote_always body_1989)
         ["Japan"; "India"] 1990 None []).2
      = [] ++ concat (country_events 1990 2024 <$> isos).
Proof.
  exact (fetch_for_countries_requests 2024 (remote_always body_1989)
           ["Japan"; "India"] 1990 None [] _ _ eq_refl).
Defined.

Lemma fetch_for_countries_keys_witness :
  ∃ result,
    (fetch_for_countries 2024 (remote_always body_1989)
       ["Japan"; "India"; "Japan"] 1990 None []).1 = inr result
    ∧ NoDup result.*1
    ∧ ∀ name, name ∈ result.*1 ↔ name ∈ ["Japan"; "India"; "Japan"].
Proof.
  eexists. split; [reflexivity|].
  destruct (fetch_for_countries_keys 2024 (remote_always body_1989)
              ["Japan"; "India"; "Japan"] 1990 None [] _ _ eq_refl) as (H1 & H2 & _).
  split; [exact H1 | exact H2].
Defined.


Lemma fetch_for_countries_returns_witness :
  ∃ result log',
    fetch_for_countries 2024 (remote_always body_1989) ["Japan"; "India"] 1990 None []
    = (inr result, log')
    ∧ calls log' = 4%nat.
Proof.
  destruct (fetch_for_countries_returns 2024 (remote_always body_1989)
              ["Japan"; "India"] 1990 None []) as (result & log' & H1 & H2 & _).
  - repeat constructor; by eexists.
  - intros log url p. by eexists.
  - by exists result, log'.
Defined.

Lemma fetch_for_countries_failure_witness :
  fetch_for_countries 2024 (remote_without "IND" body_1989)
    ["Japan"; "India"; "China"] 1990 None []
  = (inl ConnectionError,
     country_events 1990 2024 "JPN"
     ++ [Get (request_url "IND" MARKETCAP_IND) (request_params 1990 2024);
         Get (request_url "IND" GDP_IND) (request_params 1990 2024)]).
Proof.
  refine (proj2 (fetch_for_countries_failure 2024 (remote_without "IND" body_1989)
                   ["Japan"] "India" ["China"] "IND" 1990 None [] _ _
                   eq_refl eq_refl) [(1989, 7%float)] ConnectionError eq_refl eq_refl).
Defined.

Lemma combine_after_fetch_witness :
  ∃ result combined,
    (fetch_for_countries 2024 (remote_always body_1989)
       ["Japan"; "India"] 1990 None []).1 = inr result
    ∧ combine_countries_to_df result = inr combined
    ∧ (df_columns combined).*1 = ["Japan"; "India"]
    ∧ Sorted Z.lt (df_index combined).
Proof.
  destruct (combine_after_fetch 2024 (remote_always body_1989)
              ["Japan"; "India"] 1990 None [] _ _ eq_refl)
    as (combined & H1 & H2 & H3).
  eexists _, combined. split; [reflexivity|]. split; [exact H1|].
  split; [exact H2 | exact H3].
Defined.

Lemma combine_missing_column_witness :
  combine_countries_to_df (tables_A_B ++ [("C", empty_frame); ("D", empty_frame)])
  = inl (KeyError "buffett").
Proof.
  apply (combine_missing_column tables_A_B "C" empty_frame [("D", empty_frame)]).
  - repeat constructor; by eexists.
  - reflexivity.
Defined.

Lemma country_frame_columns_witness :
  df_cell (country_frame mc_2020_2021 gdp_2020_2021) "market_cap" 2021
  = Some (cell_of mc_2020_2021 2021)
  ∧ df_cell (country_frame mc_2020_2021 gdp_2020_2021) "gdp" 2021
    = Some (cell_of gdp_2020_2021 2021).
Proof.
  destruct (country_frame_columns mc_2020_2021 gdp_2020_2021 2021) as (H1 & H2 & _).
  - apply (list_elem_of_further _ _ _ (list_elem_of_here _ _)).
  - split; [exact H1 | exact H2].
Defined.

(** ** The order of floats *)

Section FloatOrder.

Implicit Types (x y z : float) (a b c : spec_float).

Ltac cmp_cases :=
  repeat match goal with
    | |- context [Z.compare ?u ?v] => destruct (Z.compare_spec u v); subst
    | |- context [Pos.compare ?u ?v] => destruct (Pos.compare_spec u v); subst
    | H : context [Z.compare ?u ?v] |- _ => destruct (Z.compare_spec u v); subst
    | H : context [Pos.compare ?u ?v] |- _ => destruct (Pos.compare_spec u v); subst
    end;
  cbn in *; try done; try lia.

Lemma SFcompare_antisym a b : SFcompare b a = CompOpp <$> SFcompare a b.
Proof.
  destruct a as [sa|sa| |sa ma ea], b as [sb|sb| |sb mb eb]; cbn;
    try destruct sa; try destruct sb; try reflexivity;
    change (Pos.compare_cont Eq ?u ?v) with (Pos.compare u v);
    f_equal; cmp_cases.
Qed.

Lemma SFcompare_trans a b c o :
  SFcompare a b = Some o → SFcompare b c = Some o → SFcompare a c = Some o.
Proof.
  destruct a as [sa|sa| |sa ma ea], b as [sb|sb| |sb mb eb], c as [sc|sc| |sc mc ec];
    cbn; try discriminate;
    try destruct sa; try destruct sb; try destruct sc; cbn; try congruence;
    change (Pos.compare_cont Eq ?u ?v) with (Pos.compare u v);
    intros [= <-]; intros [= H]; f_equal; revert H; cmp_cases.
Qed.

Lemma SFcompare_Eq_l a b c o :
  SFcompare a b = Some Eq → SFcompare b c = Some o → SFcompare a c = Some o.
Proof.
  destruct a as [sa|sa| |sa ma ea], b as [sb|sb| |sb mb eb], c as [sc|sc| |sc mc ec];
    cbn; try discriminate;
    try destruct sa; try destruct sb; try destruct sc; cbn; try congruence;
    change (Pos.compare_cont Eq ?u ?v) with (Pos.compare u v);
    intros [= H1]; intros [= <-]; f_equal; revert H1; cmp_cases.
Qed.

Lemma SFcompare_is_Some a b :
  a ≠ S754_nan → b ≠ S754_nan → is_Some (SFcompare a b).
Proof. destruct a, b; cbn; try done; eauto. Qed.

End FloatOrder.

Section FloatComparisons.

Implicit Types (x y z : float).

Lemma ltb_iff x y :
  PrimFloat.ltb x y = true ↔ SFcompare (Prim2SF x) (Prim2SF y) = Some Lt.
Proof.
  rewrite ltb_spec. unfold SFltb.
  destruct (SFcompare _ _) as [[]|]; split; congruence.
Qed.

Lemma leb_iff x y :
  PrimFloat.leb x y = true ↔
  SFcompare (Prim2SF x) (Prim2SF y) = Some Lt ∨ SFcompare (Prim2SF x) (Prim2SF y) = Some Eq.
Proof.
  rewrite leb_spec. unfold SFleb.
  destruct (SFcompare _ _) as [[]|]; split; try congruence; try tauto;
    intros [|]; congruence.
Qed.

Lemma ltb_leb x y : PrimFloat.ltb x y = true → PrimFloat.leb x y = true.
Proof. rewrite ltb_iff, leb_iff. tauto. Qed.

Lemma ltb_asym x y : PrimFloat.ltb x y = true → PrimFloat.ltb y x = false.
Proof.
  rewrite ltb_iff. intros H. apply not_true_is_false. rewrite ltb_iff.
  rewrite SFcompare_antisym, H. discriminate.
Qed.

Lemma leb_not_ltb x y : PrimFloat.leb x y = true → PrimFloat.ltb y x = false.
Proof.
  rewrite leb_iff. intros H. apply not_true_is_false. rewrite ltb_iff.
  rewrite SFcompare_antisym. destruct H as [-> | ->]; discriminate.
Qed.

(** Two floats that are not NaN compare one way or the other. *)
Lemma not_ltb_leb x y :
  isna x = false → isna y = false →
  PrimFloat.ltb x y = false → PrimFloat.leb y x = true.
Proof.
  intros Hx Hy H. apply leb_iff.
  destruct (SFcompare_is_Some (Prim2SF x) (Prim2SF y)) as [o Ho].
  - rewrite Prim2SF_nan_iff. congruence.
  - rewrite Prim2SF_nan_iff. congruence.
  - rewrite SFcompare_antisym, Ho. destruct o; cbn; auto.
    apply ltb_iff in Ho. congruence.
Qed.

Lemma ltb_notna x y :
  PrimFloat.ltb x y = true → isna x = false ∧ isna y = false.
Proof.
  rewrite ltb_iff. intros H.
  split; apply not_true_is_false; rewrite <- Prim2SF_nan_iff; intros E;
    rewrite E in H; [|destruct (Prim2SF x)]; discriminate.
Qed.

Lemma leb_notna x y :
  PrimFloat.leb x y = true → isna x = false ∧ isna y = false.
Proof.
  rewrite leb_iff. intros H.
  split; apply not_true_is_false; rewrite <- Prim2SF_nan_iff; intros E;
    rewrite E in H; [|destruct (Prim2SF x)]; destruct H; discriminate.
Qed.

Lemma ltb_trans x y z :
  PrimFloat.ltb x y = true → PrimFloat.ltb y z = true → PrimFloat.ltb x z = true.
Proof. rewrite !ltb_iff. apply SFcompare_trans. Qed.

Lemma leb_ltb_trans x y z :
  PrimFloat.leb x y = true → PrimFloat.ltb y z = true → PrimFloat.ltb x z = true.
Proof.
  rewrite leb_iff, !ltb_iff. intros [H|H] Hyz.
  - by eapply SFcompare_trans.
  - by eapply SFcompare_Eq_l.
Qed.

Lemma leb_trans x y z :
  PrimFloat.leb x y = true → PrimFloat.leb y z = true → PrimFloat.leb x z = true.
Proof.
  rewrite !leb_iff. intros [H1|H1] [H2|H2].
  - left. by eapply SFcompare_trans.
  - left. rewrite SFcompare_antisym in H2 |- *.
    destruct (SFcompare (Prim2SF z) (Prim2SF y)) as [o|] eqn:E2; [|done].
    destruct o; try done.
    rewrite (SFcompare_antisym (Prim2SF y) (Prim2SF x)) in H1.
    destruct (SFcompare (Prim2SF y) (Prim2SF x)) as [o|] eqn:E1; [|done].
    destruct o; try done.
    by rewrite (SFcompare_Eq_l _ _ _ _ E2 E1).
  - left. by eapply SFcompare_Eq_l.
  - right. by eapply SFcompare_trans.
Qed.

End FloatComparisons.

(** ** The calculator of the About page (lines 25-46) *)

Section CalculatorFacts.

Implicit Types (b : float).

(** From [k <= b], for a constant [c <= k]: [b < c] is false. *)
Ltac not_below H :=
  apply leb_not_ltb; eapply leb_trans; [|exact H]; reflexivity.

(** Every float is NaN or falls into exactly one of the five bands. *)
Lemma band_cases b :
  isna b = true
  ∨ PrimFloat.ltb b 50 = true
  ∨ (PrimFloat.leb 50 b = true ∧ PrimFloat.ltb b 75 = true)
  ∨ (PrimFloat.leb 75 b = true ∧ PrimFloat.ltb b 90 = true)
  ∨ (PrimFloat.leb 90 b = true ∧ PrimFloat.ltb b 115 = true)
  ∨ PrimFloat.leb 115 b = true.
Proof.
  destruct (isna b) eqn:Hb; [by left | right].
  destruct (PrimFloat.ltb b 50) eqn:H50; [by left | right].
  apply not_ltb_leb in H50; [|done..].
  destruct (PrimFloat.ltb b 75) eqn:H75; [by left | right].
  apply not_ltb_leb in H75; [|done..].
  destruct (PrimFloat.ltb b 90) eqn:H90; [by left | right].
  apply not_ltb_leb in H90; [|done..].
  destruct (PrimFloat.ltb b 115) eqn:H115; [by left | right].
  by apply not_ltb_leb in H115.
Qed.

Lemma interpretation_lt_50 b :
  PrimFloat.ltb b 50 = true → interpretation b = "Significantly Undervalued 📉".
Proof. unfold interpretation. by intros ->. Qed.

Lemma interpretation_50_75 b :
  PrimFloat.leb 50 b = true → PrimFloat.ltb b 75 = true →
  interpretation b = "Moderately Undervalued".
Proof.
  intros H1 H2. unfold interpretation.
  by rewrite (leb_not_ltb _ _ H1), H1, H2.
Qed.

Lemma interpretation_75_90 b :
  PrimFloat.leb 75 b = true → PrimFloat.ltb b 90 = true →
  interpretation b = "Fair Value ⚖️".
Proof.
  intros H1 H2. unfold interpretation.
  assert (PrimFloat.ltb b 50 = false) as -> by not_below H1.
  assert (PrimFloat.ltb b 75 = false) as -> by not_below H1.
  by rewrite andb_false_r, H1, H2.
Qed.

Lemma interpretation_90_115 b :
  PrimFloat.leb 90 b = true → PrimFloat.ltb b 115 = true →
  interpretation b = "Moderately Overvalued".
Proof.
  intros H1 H2. unfold interpretation.
  assert (PrimFloat.ltb b 50 = false) as -> by not_below H1.
  assert (PrimFloat.ltb b 75 = false) as -> by not_below H1.
  assert (PrimFloat.ltb b 90 = false) as -> by not_below H1.
  by rewrite !andb_false_r, H1, H2.
Qed.

Lemma interpretation_ge_115 b :
  PrimFloat.leb 115 b = true → interpretation b = "Significantly Overvalued 📈".
Proof.
  intros H1. unfold interpretation.
  assert (PrimFloat.ltb b 50 = false) as -> by not_below H1.
  assert (PrimFloat.ltb b 75 = false) as -> by not_below H1.
  assert (PrimFloat.ltb b 90 = false) as -> by not_below H1.
  assert (PrimFloat.ltb b 115 = false) as -> by not_below H1.
  by rewrite !andb_false_r.
Qed.

Lemma ltb_nan_l b c : isna b = true → PrimFloat.ltb b c = false.
Proof.
  intros Hb. apply not_true_is_false. intros [H _]%ltb_notna. congruence.
Qed.

Lemma interpretation_nan b :
  isna b = true → interpretation b = "Significantly Overvalued 📈".
Proof.
  intros Hb. unfold interpretation. rewrite !(ltb_nan_l b) by done.
  by rewrite !andb_false_r.
Qed.

(** X15.  The reading of the indicator, band by band: below 50, from 50 to
    below 75, from 75 to below 90, from 90 to below 115, and 115 or more.
    The lower bound of a band belongs to it, no value has two readings, and
    a NaN falls through every comparison to the last branch. *)
Theorem interpretation_bands b :
  (interpretation b = "Significantly Undervalued 📉" ↔ PrimFloat.ltb b 50 = true)
  ∧ (interpretation b = "Moderately Undervalued"
     ↔ PrimFloat.leb 50 b = true ∧ PrimFloat.ltb b 75 = true)
  ∧ (interpretation b = "Fair Value ⚖️"
     ↔ PrimFloat.leb 75 b = true ∧ PrimFloat.ltb b 90 = true)
  ∧ (interpretation b = "Moderately Overvalued"
     ↔ PrimFloat.leb 90 b = true ∧ PrimFloat.ltb b 115 = true)
  ∧ (interpretation b = "Significantly Overvalued 📈"
     ↔ PrimFloat.leb 115 b = true ∨ isna b = true).
Proof.
  destruct (band_cases b) as [H|[H|[[H1 H2]|[[H1 H2]|[[H1 H2]|H]]]]].
  - rewrite (interpretation_nan b H).
    repeat split; try done; try (intros [H1 _]; apply leb_notna in H1 as [_ ?]; congruence);
      try (intros [? _]%ltb_notna; congruence); auto.
  - rewrite (interpretation_lt_50 b H).
    repeat split; try done; intros H'.
    + destruct H' as [H' _]. apply leb_not_ltb in H'. congruence.
    + destruct H' as [H' _].
      assert (PrimFloat.ltb b 50 = false) by not_below H'. congruence.
    + destruct H' as [H' _].
      assert (PrimFloat.ltb b 50 = false) by not_below H'. congruence.
    + destruct H' as [H'|H'].
      * assert (PrimFloat.ltb b 50 = false) by not_below H'. congruence.
      * apply ltb_notna in H as [? _]. congruence.
  - rewrite (interpretation_50_75 b H1 H2).
    repeat split; try done; intros H'.
    + apply leb_not_ltb in H1. congruence.
    + destruct H' as [H' _].
      assert (PrimFloat.ltb b 75 = false) by not_below H'. congruence.
    + destruct H' as [H' _].
      assert (PrimFloat.ltb b 75 = false) by not_below H'. congruence.
    + destruct H' as [H'|H'].
      * assert (PrimFloat.ltb b 75 = false) by not_below H'. congruence.
      * apply ltb_notna in H2 as [? _]. congruence.
  - rewrite (interpretation_75_90 b H1 H2).
    repeat split; try done; intros H'.
    + assert (PrimFloat.ltb b 50 = false) by not_below H1. congruence.
    + destruct H' as [_ H'].
      assert (PrimFloat.ltb b 75 = false) by not_below H1. congruence.
    + destruct H' as [H' _].
      assert (PrimFloat.ltb b 90 = false) by not_below H'. congruence.
    + destruct H' as [H'|H'].
      * assert (PrimFloat.ltb b 90 = false) by not_below H'. congruence.
      * apply ltb_notna in H2 as [? _]. congruence.
  - rewrite (interpretation_90_115 b H1 H2).
    repeat split; try done; intros H'.
    + assert (PrimFloat.ltb b 50 = false) by not_below H1. congruence.
    + destruct H' as [_ H'].
      assert (PrimFloat.ltb b 75 = false) by not_below H1. congruence.
    + destruct H' as [_ H'].
      assert (PrimFloat.ltb b 90 = false) by not_below H1. congruence.
    + destruct H' as [H'|H'].
      * assert (PrimFloat.ltb b 115 = false) by not_below H'. congruence.
      * apply ltb_notna in H2 as [? _]. congruence.
  - rewrite (interpretation_ge_115 b H).
    repeat split; try done; try (intros _; by left); intros H'.
    + assert (PrimFloat.ltb b 50 = false) by not_below H. congruence.
    + destruct H' as [_ H'].
      assert (PrimFloat.ltb b 75 = false) by not_below H. congruence.
    + destruct H' as [_ H'].
      assert (PrimFloat.ltb b 90 = false) by not_below H. congruence.
    + destruct H' as [_ H'].
      assert (PrimFloat.ltb b 115 = false) by not_below H. congruence.
Qed.

(** X16.  The calculator shows no result exactly when the GDP is NaN or not
    above zero, so it never divides by zero; for a GDP above zero it shows
    (market_cap / gdp) * 100 with the reading of that value. *)
Theorem calculator_positive_gdp market_cap gdp :
  (calculator market_cap gdp = None
   ↔ isna gdp = true ∨ PrimFloat.leb gdp 0 = true)
  ∧ (PrimFloat.ltb 0 gdp = true →
     let b := PrimFloat.mul (PrimFloat.div market_cap gdp) 100 in
     calculator market_cap gdp = Some (b, interpretation b)).
Proof.
  unfold calculator. split.
  - destruct (PrimFloat.ltb 0 gdp) eqn:H; split; try done.
    + intros [Hn|Hle].
      * apply ltb_notna in H as [_ ?]. congruence.
      * apply leb_not_ltb in Hle. congruence.
    + intros _. destruct (isna gdp) eqn:Hn; [by left | right].
      by apply not_ltb_leb.
  - by intros ->.
Qed.

End CalculatorFacts.

(** ** Forward fill and the handling of the gaps (Home.py, lines 52-56) *)

Section FfillFacts.

Implicit Types (col gap : list float) (last v : float) (i : nat).

Lemma ffill_from_length last col : length (ffill_from last col) = length col.
Proof.
  revert last. induction col as [|v col IH]; intros last; cbn; [done|].
  destruct (isna v); cbn; by rewrite IH.
Qed.

Lemma ffill_from_known last col i v :
  col !! i = Some v → notna v = true → ffill_from last col !! i = Some v.
Proof.
  revert last i. induction col as [|w col IH]; intros last i; [done|].
  destruct i as [|i]; cbn.
  - intros [= ->] Hv. unfold notna in Hv. by destruct (isna v).
  - intros Hi Hv. destruct (isna w); cbn; by apply IH.
Qed.

Lemma ffill_from_gap last gap col :
  Forall (λ v, isna v = true) gap →
  ffill_from last (gap ++ col) = replicate (length gap) last ++ ffill_from last col.
Proof.
  induction 1 as [|v gap Hv _ IH]; cbn; [done|]. by rewrite Hv, IH.
Qed.

Lemma ffill_from_app last col1 v col2 :
  notna v = true →
  ffill_from last (col1 ++ v :: col2) = ffill_from last col1 ++ v :: ffill_from v col2.
Proof.
  intros Hv. revert last. induction col1 as [|w col1 IH]; intros last; cbn.
  - unfold notna in Hv. by destruct (isna v).
  - destruct (isna w); cbn; by rewrite IH.
Qed.

Lemma ffill_from_idemp last col :
  ffill_from last (ffill_from last col) = ffill_from last col.
Proof.
  revert last. induction col as [|v col IH]; intros last; cbn; [done|].
  destruct (isna v) eqn:Hv; cbn.
  - rewrite IH. by destruct (isna last).
  - by rewrite Hv, IH.
Qed.

Lemma ffill_from_notna last col :
  notna last = true → Forall (λ v, notna v = true) (ffill_from last col).
Proof.
  revert last. induction col as [|v col IH]; intros last Hl; cbn; [constructor|].
  destruct (isna v) eqn:Hv; constructor; auto.
  - unfold notna. by rewrite Hv.
  - apply IH. unfold notna. by rewrite Hv.
Qed.





End FfillFacts.

Section FillFacts.

Implicit Types (col gap : list float) (v : float) (i j d : nat) (df : DataFrame).

#[local] Open Scope nat_scope.

Lemma ffill_1d_known col i v :
  col !! i = Some v → notna v = true → ffill_1d col !! i = Some v.
Proof. apply ffill_from_known. Qed.

Lemma ffill_1d_carried l1 y gap l2 d :
  notna y = true → Forall (λ v, isna v = true) gap → d < length gap →
  ffill_1d (l1 ++ y :: gap ++ l2) !! (length l1 + 1 + d) = Some y.
Proof.
  intros Hy Hgap Hd. unfold ffill_1d.
  rewrite ffill_from_app by done. rewrite lookup_app_r by (rewrite ffill_from_length; lia).
  rewrite ffill_from_length.
  replace (length l1 + 1 + d - length l1) with (S d) by lia.
  change (ffill_from y (gap ++ l2) !! d = Some y).
  rewrite ffill_from_gap by done.
  rewrite lookup_app_l by (rewrite length_replicate; lia).
  by apply lookup_replicate_2.
Qed.

Lemma ffill_1d_leading gap l2 d :
  Forall (λ v, isna v = true) gap → d < length gap →
  ffill_1d (gap ++ l2) !! d = Some nan.
Proof.
  intros Hgap Hd. unfold ffill_1d. rewrite ffill_from_gap by done.
  rewrite lookup_app_l by (rewrite length_replicate; lia).
  by apply lookup_replicate_2.
Qed.

Lemma ffill_from_cons last x col :
  ffill_from last (x :: col)
  = (if isna x then last else x) :: ffill_from (if isna x then last else x) col.
Proof. cbn. by destruct (isna x). Qed.

Lemma ffill_from_no_gap last col i j v :
  ffill_from last col !! i = Some v → notna v = true → i ≤ j → j < length col →
  ∃ w, ffill_from last col !! j = Some w ∧ notna w = true.
Proof.
  revert last i j. induction col as [|x col IH]; intros last i j; [done|].
  rewrite ffill_from_cons. set (l := if isna x then last else x).
  destruct i as [|i], j as [|j]; cbn [length]; intros Hi Hv Hij Hj; try lia.
  - eauto.
  - injection Hi as <-.
    destruct (lookup_lt_is_Some_2 (ffill_from l col) j) as [w Hw];
      [rewrite ffill_from_length; lia|].
    exists w. split; [done|].
    pose proof (ffill_from_notna l col Hv) as Hall.
    rewrite Forall_lookup in Hall. by eapply Hall.
  - apply (IH l i j); [done..|lia|lia].
Qed.








End FillFacts.

(** ** The latest values (Home.py, line 70) *)

Section LatestFacts.

Implicit Types (idx : list Z) (col : list float) (s : list (string * float))
  (df : DataFrame).

Lemma foldl_max_le (y : Z) idx : y ≤ foldl Z.max y idx.
Proof.
  revert y. induction idx as [|z idx IH]; intros y; cbn; [lia|].
  specialize (IH (Z.max y z)). lia.
Qed.

Lemma foldl_max_elem_of (y : Z) idx :
  foldl Z.max y idx = y ∨ foldl Z.max y idx ∈ idx.
Proof.
  revert y. induction idx as [|z idx IH]; intros y; cbn; [by left|].
  destruct (IH (Z.max y z)) as [H|H].
  - rewrite H. destruct (Z.max_spec y z) as [[_ ->]|[_ ->]]; [right | by left].
    apply elem_of_cons. by left.
  - right. apply elem_of_cons. by right.
Qed.

Lemma foldl_max_ge (y : Z) idx z : z ∈ idx → z ≤ foldl Z.max y idx.
Proof.
  revert y. induction idx as [|z' idx IH]; intros y Hz; cbn.
  - by apply elem_of_nil in Hz.
  - apply elem_of_cons in Hz as [->|Hz]; [|by apply IH].
    pose proof (foldl_max_le (Z.max y z') idx). lia.
Qed.

(** [index.max()] is a label of the index, and the largest. *)
Lemma index_max_spec idx :
  idx ≠ [] →
  ∃ ymax, index_max idx = Some ymax ∧ ymax ∈ idx ∧ ∀ y, y ∈ idx → y ≤ ymax.
Proof.
  destruct idx as [|y idx]; [done|]. intros _. exists (foldl Z.max y idx).
  split; [done|]. split.
  - destruct (foldl_max_elem_of y idx) as [->|H]; apply elem_of_cons; auto.
  - intros z [->|Hz]%elem_of_cons; [apply foldl_max_le | by apply foldl_max_ge].
Qed.


Lemma list_find_NoDup idx (y : Z) (i : nat) :
  NoDup idx → idx !! i = Some y → list_find (λ y', y' = y) idx = Some (i, y).
Proof.
  intros Hnd Hi. apply list_find_Some. split; [done|]. split; [done|].
  intros j z Hj Hji ->. pose proof (NoDup_lookup _ _ _ _ Hnd Hi Hj). lia.
Qed.

Lemma at_label_zip_lookup idx col (y : Z) (i : nat) :
  NoDup idx → idx !! i = Some y → at_label (zip idx col) y = col !! i.
Proof.
  revert col i. induction idx as [|y' idx IH]; intros col i Hnd Hi; [done|].
  apply NoDup_cons in Hnd as [Hy' Hnd].
  destruct col as [|v col]; cbn.
  - by destruct i.
  - destruct i as [|i]; cbn in Hi.
    + injection Hi as ->. by rewrite decide_True.
    + rewrite decide_False; [by apply (IH col i)|].
      intros ->. apply Hy'. by eapply list_elem_of_lookup_2.
Qed.

Lemma assoc_elem_of {A} (name : string) (v : A) (l : list (string * A)) :
  assoc name l = Some v → (name, v) ∈ l.
Proof.
  induction l as [|[k w] l IH]; cbn; [done|].
  case_decide as E; [intros [= ->]; subst | intros; apply elem_of_cons; right; auto].
  apply elem_of_cons. by left.
Qed.

(** *** Sorting by value, largest first *)

Lemma insert_desc_Permutation x s : insert_desc x s ≡ₚ x :: s.
Proof.
  induction s as [|y s IH]; cbn; [done|].
  destruct (PrimFloat.ltb x.2 y.2); [|done].
  rewrite IH. apply Permutation_swap.
Qed.

Lemma sort_values_desc_Permutation s : sort_values_desc s ≡ₚ s.
Proof.
  induction s as [|x s IH]; cbn; [done|].
  by rewrite insert_desc_Permutation, IH.
Qed.

Lemma insert_desc_Sorted x s :
  Sorted (λ a b, PrimFloat.ltb a.2 b.2 = false) s →
  Sorted (λ a b, PrimFloat.ltb a.2 b.2 = false) (insert_desc x s).
Proof.
  induction 1 as [|y s Hs IH Hhd]; cbn; [by repeat constructor|].
  destruct (PrimFloat.ltb x.2 y.2) eqn:E.
  - constructor; [done|].
    destruct Hhd as [|z s Hyz]; cbn.
    + constructor. by apply ltb_asym.
    + destruct (PrimFloat.ltb x.2 z.2); constructor; [done | by apply ltb_asym].
  - constructor; [by constructor | by constructor].
Qed.

Lemma sort_values_desc_Sorted s :
  Sorted (λ a b, PrimFloat.ltb a.2 b.2 = false) (sort_values_desc s).
Proof.
  induction s as [|x s IH]; cbn; [constructor | by apply insert_desc_Sorted].
Qed.

(** Without NaN the order is total: no entry is below a later one. *)
Lemma sort_values_desc_descending s :
  Forall (λ kv, notna kv.2 = true) s →
  StronglySorted (λ a b, PrimFloat.leb b.2 a.2 = true) (sort_values_desc s).
Proof.
  intros Hall.
  assert (Forall (λ kv, notna kv.2 = true) (sort_values_desc s)) as Hall'
    by (by rewrite sort_values_desc_Permutation).
  apply Sorted_StronglySorted.
  { intros a b c Hab Hbc. by eapply leb_trans. }
  pose proof (sort_values_desc_Sorted s) as Hs.
  induction Hs as [|a l Hs IH Hhd]; [constructor|].
  apply Forall_cons in Hall' as [Ha Hl].
  constructor; [by apply IH|].
  destruct Hhd as [|b l Hab]; constructor.
  apply Forall_cons in Hl as [Hb _].
  unfold notna in Ha, Hb.
  apply not_ltb_leb; [by destruct (isna a.2) | by destruct (isna b.2) | done].
Qed.

Lemma notna_default_lookup col (i : nat) v :
  default nan (col !! i) = v ∧ notna v = true ↔ col !! i = Some v ∧ notna v = true.
Proof.
  split.
  - intros [<- Hv]. destruct (col !! i); [done | discriminate Hv].
  - by intros [-> Hv].
Qed.

(** The row of [df.loc] at the position of the label. *)
Lemma df_loc_row df (y : Z) (i : nat) :
  NoDup (df_index df) → df_index df !! i = Some y →
  df_loc df (Some y)
  = inr (LocRow ((λ c, (c.1, default nan (c.2 !! i))) <$> df_columns df)).
Proof.
  intros Hnd Hi. unfold df_loc. rewrite (list_find_NoDup _ _ i) by done.
  rewrite decide_False; [done|].
  intros [j Hj]%list_elem_of_lookup. rewrite lookup_drop in Hj.
  pose proof (NoDup_lookup _ _ _ _ Hnd Hi Hj). lia.
Qed.

Lemma latest_of_row df (y : Z) (i : nat) :
  NoDup (df_index df) → index_max (df_index df) = Some y → df_index df !! i = Some y →
  latest_of df
  = inr (sort_values_desc
           (dropna ((λ c, (c.1, default nan (c.2 !! i))) <$> df_columns df))).
Proof.
  intros Hnd Hm Hi. unfold latest_of. by rewrite Hm, (df_loc_row _ _ i).
Qed.

Lemma elem_of_latest_row df (i : nat) name v :
  (name, v) ∈ sort_values_desc
                (dropna ((λ c, (c.1, default nan (c.2 !! i))) <$> df_columns df))
  ↔ ∃ col, (name, col) ∈ df_columns df ∧ default nan (col !! i) = v ∧ notna v = true.
Proof.
  rewrite sort_values_desc_Permutation. unfold dropna.
  rewrite list_elem_of_filter, list_elem_of_fmap. cbn. split.
  - intros (Hv & [n col] & [= -> ->] & Hin). eauto.
  - intros (col & Hin & <- & Hv). split; [done|]. by exists (name, col).
Qed.

End LatestFacts.

(** X17.  For a table with at least one year, distinct years and distinct
    column names, line 70 raises nothing: the latest table holds exactly the
    countries with a value at the largest year, each with that value, and no
    entry is smaller than one that comes after it. *)
Theorem latest_of_spec combined :
  NoDup (df_index combined) → df_index combined ≠ [] →
  NoDup (df_columns combined).*1 →
  ∃ ymax latest,
    latest_of combined = inr latest
    ∧ ymax ∈ df_index combined
    ∧ (∀ y, y ∈ df_index combined → y ≤ ymax)
    ∧ (∀ name v, (name, v) ∈ latest
                 ↔ df_cell combined name ymax = Some v ∧ notna v = true)
    ∧ StronglySorted (λ a b, PrimFloat.leb b.2 a.2 = true) latest.
Proof.
  intros Hnd Hne Hnames.
  destruct (index_max_spec _ Hne) as (ymax & Hm & Hin & Hmax).
  pose proof Hin as Hi. apply list_elem_of_lookup in Hi as [i Hi].
  exists ymax, (sort_values_desc
                  (dropna ((λ c, (c.1, default nan (c.2 !! i))) <$> df_columns combined))).
  split; [by apply (latest_of_row _ ymax)|]. split; [done|]. split; [done|]. split.
  - intros name v. rewrite elem_of_latest_row. unfold df_cell, series_of. split.
    + intros (col & Hcol & Hv). apply notna_default_lookup in Hv as [Hv Hn].
      rewrite (assoc_NoDup name col) by done.
      by rewrite (at_label_zip_lookup _ _ _ i).
    + destruct (assoc name (df_columns combined)) as [col|] eqn:Hcol; [|by intros []].
      rewrite (at_label_zip_lookup _ _ _ i) by done. intros [Hv Hn].
      exists col. split; [by apply assoc_elem_of|]. by apply notna_default_lookup.
  - apply sort_values_desc_descending. unfold dropna.
    apply Forall_forall. by intros kv [Hv _]%list_elem_of_filter.
Qed.

Lemma latest_of_spec_witness :
  ∃ ymax latest,
    latest_of frame_A_B = inr latest
    ∧ ymax ∈ df_index frame_A_B
    ∧ (∀ name v, (name, v) ∈ latest
                 ↔ df_cell frame_A_B name ymax = Some v ∧ notna v = true).
Proof.
  destruct (latest_of_spec frame_A_B) as (ymax & latest & H1 & H2 & _ & H3 & _).
  - cbn. by solve_NoDup.
  - discriminate.
  - cbn. by solve_NoDup.
  - by exists ymax, latest.
Defined.

(** ** The table after the handling of the gaps (Home.py, lines 52-70) *)

Section LastCell.

Implicit Types (col gap : list float) (v : float) (i j d : nat) (df : DataFrame).



End LastCell.

(** X18.  Under the forward-fill policy the years are kept and each column is
    filled on its own: a missing cell after a known value takes the last
    known value before it, a leading gap stays missing, and a known value is
    kept. *)
Theorem forward_fill_spec combined :
  let out := handle_missing "Forward-fill" combined in
  df_index out = df_index combined
  ∧ df_columns out = (λ c, (c.1, ffill_1d c.2)) <$> df_columns combined
  ∧ (∀ l1 y gap l2 d,
       notna y = true → Forall (λ v, isna v = true) gap → (d < length gap)%nat →
       ffill_1d (l1 ++ y :: gap ++ l2) !! (length l1 + 1 + d)%nat = Some y)
  ∧ (∀ gap l2 d,
       Forall (λ v, isna v = true) gap → (d < length gap)%nat →
       ffill_1d (gap ++ l2) !! d = Some nan)
  ∧ (∀ col i v,
       col !! i = Some v → notna v = true → ffill_1d col !! i = Some v).
Proof.
  split; [done|]. split; [done|]. split; [|split].
  - intros. by apply ffill_1d_carried.
  - intros. by apply ffill_1d_leading.
  - intros. by apply ffill_1d_known.
Qed.

(** X19.  Forward-filling a second time changes nothing, and in a
    forward-filled column no missing cell follows a known one. *)
Theorem forward_fill_no_gap combined :
  let out := handle_missing "Forward-fill" combined in
  handle_missing "Forward-fill" out = out
  ∧ ∀ name col i j v,
      (name, col) ∈ df_columns out →
      col !! i = Some v → notna v = true → (i ≤ j)%nat → (j < length col)%nat →
      ∃ w, col !! j = Some w ∧ notna w = true.
Proof.
  split.
  - change (map_columns ffill_1d (map_columns ffill_1d combined)
            = map_columns ffill_1d combined).
    unfold map_columns. cbn [df_index df_columns]. f_equal.
    rewrite <- list_fmap_compose. apply list_fmap_ext. intros _ [name col] _. cbn.
    f_equal. apply ffill_from_idemp.
  - intros name col i j v Hin Hi Hv Hij Hj.
    change (df_columns (handle_missing "Forward-fill" combined))
      with ((λ c, (c.1, ffill_1d c.2)) <$> df_columns combined) in Hin.
    apply list_elem_of_fmap in Hin as ([n c] & [= -> ->] & _). cbn in *.
    unfold ffill_1d in *. rewrite ffill_from_length in Hj.
    by eapply ffill_from_no_gap.
Qed.


(** X21.  The rows handed to the chart are exactly the cells of the table
    that are not missing, each with its year and its country (for a table
    with no column called "index"). *)
Theorem df_long_rows combined r :
  "index" ∉ (df_columns combined).*1 →
  r ∈ dropna_long (melt combined)
  ↔ notna (buffett_percent r) = true
    ∧ ∃ col i, (country r, col) ∈ df_columns combined
               ∧ df_index combined !! i = Some (year r)
               ∧ col !! i = Some (buffett_percent r).
Proof.
  intros _. unfold dropna_long, melt. rewrite list_elem_of_filter, list_elem_of_bind.
  split.
  - intros (Hv & [name col] & Hr & Hin). split; [done|].
    apply list_elem_of_fmap in Hr as ([y v] & -> & Hz). cbn in *.
    apply elem_of_lookup_zip_with in Hz as (i & y' & v' & [= <- <-] & Hy & Hc).
    by exists col, i.
  - intros (Hv & col & i & Hin & Hy & Hc). split; [done|].
    exists (country r, col). split; [|done]. cbn.
    apply list_elem_of_fmap. exists (year r, buffett_percent r).
    split; [by destruct r|].
    apply elem_of_lookup_zip_with. by exists i, (year r), (buffett_percent r).
Qed.


Lemma df_long_rows_witness :
  mkLongRow 2021 "A" 20%float ∈ dropna_long (melt frame_A_B).
Proof.
  apply (df_long_rows frame_A_B).
  - cbn. intros [|[|[]%elem_of_nil]%elem_of_cons]%elem_of_cons; discriminate.
  - split; [reflexivity|]. exists [10%float; nan; 20%float], 2%nat.
    split; [apply list_elem_of_here|]. by split.
Defined.


(** ** The page and the command-line example
       (Home.py, lines 40-70; main.py, lines 97-102) *)

Section PageFacts.

Implicit Types (cd : list (string * DataFrame)).

(** The combined table of a non-empty dict of per-country tables. *)
Lemma combine_shape cd :
  Forall (λ kv, country_table kv.2) cd → cd ≠ [] →
  combine_countries_to_df cd
  = inr (mkDataFrame (combined_index cd)
           ((λ kv, (kv.1, reindex (percent_series kv.2) (combined_index cd))) <$> cd)).
Proof.
  intros Htab Hne. unfold combine_countries_to_df.
  rewrite collect_frames by done. cbn [app rbind].
  set (frames := (λ kv : string * DataFrame, (kv.1, percent_series kv.2)) <$> cd).
  assert ((λ f : string * Series, f.2.*1) <$> frames
          = (λ kv : string * DataFrame, df_index kv.2) <$> cd) as Hidx.
  { unfold frames. rewrite <- list_fmap_compose.
    apply Forall_fmap_ext_1. eapply Forall_impl; [exact Htab|].
    intros kv Hkv. cbn. by destruct (percent_series_cell kv.2 0 Hkv) as (_ & _ & _ & ->). }
  pose proof (sort_concat frames) as Hsort. cbn zeta in Hsort.
  set (idx := merge_sort _ _) in Hsort.
  assert (idx = combined_index cd) as ->.
  { unfold idx, combined_index. f_equal. f_equal. f_equal. exact Hidx. }
  destruct frames as [|f frames'] eqn:E.
  { destruct cd; [done | discriminate E]. }
  rewrite Hsort. f_equal. f_equal. rewrite <- E. unfold frames.
  by rewrite <- list_fmap_compose.
Qed.

Lemma combined_index_sorted cd : Sorted Z.lt (combined_index cd).
Proof. apply merge_sort_remove_dups_lt. Qed.



Lemma at_label_drop (s : Series) (k : nat) (y : Z) :
  y ∉ (take k s).*1 → at_label (drop k s) y = at_label s y.
Proof.
  revert k. induction s as [|[y' v] s IH]; intros [|k]; cbn; try done.
  intros H. rewrite decide_False.
  - apply IH. intros Hin. apply H, elem_of_cons. by right.
  - intros ->. apply H, elem_of_cons. by left.
Qed.

Lemma assoc_fmap_snd {A B} (f : A → B) (k : string) (l : list (string * A)) :
  assoc k ((λ c, (c.1, f c.2)) <$> l) = f <$> assoc k l.
Proof.
  induction l as [|[k' v] l IH]; cbn; [done|]. by case_decide.
Qed.

End PageFacts.

(** X23.  [tail(n)] of a table with distinct years keeps the columns, has the
    last min(n, number of rows) years of the table, and each of its cells is
    the cell of the table at that year. *)
Theorem df_tail_spec (n : nat) df :
  NoDup (df_index df) →
  let out := df_tail n df in
  (df_columns out).*1 = (df_columns df).*1
  ∧ length (df_index out) = (n `min` length (df_index df))%nat
  ∧ (∃ before, df_index df = before ++ df_index out)
  ∧ (∀ name y, y ∈ df_index out → df_cell out name y = df_cell df name y).
Proof.
  intros Hnd. cbn zeta. unfold df_tail. cbn [df_index df_columns].
  set (k := (length (df_index df) - n)%nat).
  split; [|split; [|split]].
  - rewrite <- list_fmap_compose. by apply list_fmap_ext.
  - rewrite length_drop. lia.
  - exists (take k (df_index df)). by rewrite take_drop.
  - intros name y Hy. unfold df_cell, series_of. cbn [df_index df_columns].
    rewrite (assoc_fmap_snd (drop k)).
    destruct (assoc name (df_columns df)) as [col|]; [|done]. cbn.
    rewrite <- (zip_with_drop pair k (df_index df) col). apply at_label_drop.
    intros Hin. rewrite <- (take_drop k (df_index df)) in Hnd.
    apply NoDup_app in Hnd as (_ & Hdisj & _). apply (Hdisj y); [|done].
    apply list_elem_of_fmap in Hin as ([y' v] & -> & Hin). cbn.
    apply list_elem_of_lookup in Hin as [i Hi].
    apply lookup_take_Some in Hi as [Hi Hik].
    apply lookup_zip_with_Some in Hi as (? & ? & [= <- <-] & Hi & _).
    apply elem_of_take. by exists i.
Qed.

Section PageRuns.

Variable now_year : Z.
Variable remote : list event → string → params → result response.

(** What a successful fetch hands to the rest of the page. *)
Lemma fetched_tables names start_year end_year log result log' :
  fetch_for_countries now_year remote names start_year end_year log = (inr result, log') →
  Forall (λ kv, country_table kv.2) result ∧ NoDup result.*1.
Proof.
  intros H. apply for_each_step_returns in H as (_ & _ & Hnd & _ & Hshape).
  split; [|apply Hnd; constructor].
  eapply Forall_impl; [apply Hshape; constructor|].
  intros kv. apply country_shape_table.
Qed.




(** X26.  When every reply decodes, the command-line example raises nothing:
    it fetches the United States, China and Japan, in this order, from 1990
    to the current year, and prints the last rows of their combined table,
    with these three columns over at most ten, strictly ascending years. *)
Theorem main_example log :
  (∀ log url p, returned (decode (remote log url p))) →
  ∃ data combined log',
    fetch_for_countries now_year remote ["United States"; "China"; "Japan"] 1990 None log
    = (inr data, log')
    ∧ combine_countries_to_df data = inr combined
    ∧ main now_year remote log = (inr (df_tail 10 combined), log')
    ∧ log' = log ++ concat (country_events 1990 now_year <$> ["USA"; "CHN"; "JPN"])
    ∧ (df_columns (df_tail 10 combined)).*1 = ["United States"; "China"; "Japan"]
    ∧ Sorted Z.lt (df_index (df_tail 10 combined))
    ∧ (length (df_index (df_tail 10 combined)) ≤ 10)%nat.
Proof.
  intros Hok. unfold main.
  change (take 3 TOP10_COUNTRIES.*1) with ["United States"; "China"; "Japan"].
  pose proof (for_each_step_total now_year remote 1990 None
                ["United States"; "China"; "Japan"] [] log) as Hret.
  destruct Hret as [data Hdata]; [by repeat constructor | done |].
  unfold fetch_for_countries.
  destruct (for_each_M _ _ _ _) as [r log'] eqn:E. cbn in Hdata. subst r.
  pose proof E as E'.
  apply for_each_step_returns in E' as ((isos & Hisos & ->) & _ & _ & Hord & _).
  pose proof (fetched_tables _ _ _ _ _ _ E) as [Htab Hnd].
  assert (data.*1 = ["United States"; "China"; "Japan"]) as Hkeys.
  { rewrite Hord; [done | by solve_NoDup | intros ? _; apply not_elem_of_nil]. }
  assert (data ≠ []) as Hne by (by destruct data).
  rewrite (combine_shape data Htab Hne). cbn [rbind].
  eexists _, _, _. split; [reflexivity|].
  split; [exact (combine_shape data Htab Hne)|]. split; [reflexivity|]. split.
  - f_equal. f_equal.
    repeat (apply Forall2_cons_inv_l in Hisos as (? & ? & [= <-] & Hisos & ->)).
    by apply Forall2_nil_inv_l in Hisos as ->.
  - split; [|split].
    + cbn [df_tail df_columns]. rewrite <- !list_fmap_compose. exact Hkeys.
    + cbn [df_tail df_index].
      pose proof (combined_index_sorted data) as Hs.
      rewrite <- (take_drop (length (combined_index data) - 10) (combined_index data))
        in Hs at 1.
      apply Sorted_StronglySorted in Hs; [|intros ???; lia].
      apply StronglySorted_app_1_r in Hs. by apply StronglySorted_Sorted.
    + cbn [df_tail df_index]. rewrite length_drop. lia.
Qed.

End PageRuns.

Lemma df_tail_spec_witness :
  let out := df_tail 2 frame_A_B in
  (df_columns out).*1 = ["A"; "B"]
  ∧ length (df_index out) = 2%nat
  ∧ ∀ name y, y ∈ df_index out → df_cell out name y = df_cell frame_A_B name y.
Proof.
  destruct (df_tail_spec 2 frame_A_B) as (H1 & H2 & _ & H3).
  - cbn. by solve_NoDup.
  - split; [exact H1|]. split; [exact H2 | exact H3].
Defined.


Lemma main_example_witness :
  ∃ data combined log',
    fetch_for_countries 2024 (remote_always body_1989)
      ["United States"; "China"; "Japan"] 1990 None [] = (inr data, log')
    ∧ combine_countries_to_df data = inr combined
    ∧ main 2024 (remote_always body_1989) [] = (inr (df_tail 10 combined), log')
    ∧ (df_columns (df_tail 10 combined)).*1 = ["United States"; "China"; "Japan"].
Proof.
  destruct (main_example 2024 (remote_always body_1989) [])
    as (data & combined & log' & H1 & H2 & H3 & _ & H4 & _).
  - intros log url p. by eexists.
  - by exists data, combined, log'.
Defined.
